(** * Session orchestration core of the Reggae AI Collective client

    A shallow embedding of the stateful part of [App.jsx]: the React state
    cells of the [App] component, the event handlers that read them through
    their render closure and queue updates on them, and the three external
    collaborators the handlers talk to (the chat backend, the speech
    recogniser and the speech synthesiser).

    Modelling conventions.
    - A handler is a function from the state captured by its closure (the
      values of the render in which it was created) to the list of commands
      it issues, in program order.  State setters are commands: React applies
      them to the current store, which is why [setMessages(prev => ...)] is
      an append to the store as it is when the update runs, whereas a plain
      read such as [messages.slice(-5)] sees the captured value.
    - An [async] handler is split at its first suspension point; the
      continuation keeps the closure of the call that started it.
    - Every discrete event is followed by a render, so a handler started by
      an event captures the store as it is at that event. *)

From Stdlib Require Import ZArith NArith QArith Ascii String.
From stdpp Require Import base list.

(** ** JavaScript strings

    A JavaScript string is a sequence of UTF-16 code units. *)

Abbreviation jsstring := (list N).

(** String literals of the source, all of them ASCII. *)
Definition lit (s : string) : jsstring :=
  N_of_ascii <$> list_ascii_of_string s.

(** ECMA-262 [WhiteSpace]: TAB, VT, FF, SP, NBSP, ZWNBSP and the code points
    of general category Zs. *)
Definition isWhiteSpace (c : N) : bool :=
  bool_decide (c ∈ [0x9; 0xB; 0xC; 0x20; 0xA0; 0x1680; 0x202F; 0x205F;
                    0x3000; 0xFEFF]%N)
  || ((0x2000 <=? c)%N && (c <=? 0x200A)%N).

(** ECMA-262 [LineTerminator]: LF, CR, LS, PS. *)
Definition isLineTerminator (c : N) : bool :=
  bool_decide (c ∈ [0xA; 0xD; 0x2028; 0x2029]%N).

Definition isTrimmed (c : N) : bool := isWhiteSpace c || isLineTerminator c.

Fixpoint trimStart (s : jsstring) : jsstring :=
  match s with
  | [] => []
  | c :: s' => if isTrimmed c then trimStart s' else s
  end.

Definition trimEnd (s : jsstring) : jsstring :=
  reverse (trimStart (reverse s)).

(** [String.prototype.trim] *)
Definition trim (s : jsstring) : jsstring := trimEnd (trimStart s).

(** [ToBoolean] on a string: the empty string is the only falsy one. *)
Definition truthy (s : jsstring) : bool :=
  match s with [] => false | _ :: _ => true end.

(** [Array.prototype.slice(-n)]: from index [max (length - n) 0] to the end. *)
Definition slice_last {A} (n : nat) (l : list A) : list A :=
  drop (length l - n) l.

(** ** Data carried by the component *)

Inductive Sender := user | ai.

(** A JSON value that is only passed along ([model_info]). *)
#[local] Unset Elimination Schemes.
Inductive json :=
| JNull
| JBool (b : bool)
| JNumber (q : Q)
| JString (s : jsstring)
| JArray (xs : list json)
| JObject (kvs : list (jsstring * json)).
#[local] Set Elimination Schemes.

(** The [voice_model] object of a response; [tempo] is the only property the
    component reads.  [None] stands for an absent property or one that is
    not a string. *)
Record VoiceModel := { tempo : option jsstring }.

(** The objects stored in [messages].  A property that a message object does
    not have is [None] (or [false] for [error], which is only tested for
    truthiness). *)
Module Message.
Record t := mk {
  id : Z;
  text : jsstring;
  sender : Sender;
  model : option jsstring;
  modelInfo : option json;
  voiceModel : option VoiceModel;
  timestamp : jsstring;
  processingTime : option Q;
  error : bool
}.
End Message.

(** Body of [POST /chat]. *)
Module Request.
Record context := mkContext {
  selected_model : jsstring;
  conversation_history : list Message.t
}.
Record t := mk {
  message : jsstring;
  user_id : jsstring;
  ctx : context
}.
End Request.

(** [data.response] of a successful reply. *)
Module Response.
Record t := mk {
  text : jsstring;
  selected_model : option jsstring;
  model_info : option json;
  voice_model : option VoiceModel;
  processing_time : option Q
}.
End Response.

(** How the [fetch] of [sendMessage] settles. *)
Inductive FetchOutcome :=
| NetworkError             (* [fetch] rejects *)
| HttpError                (* [response.ok] is false *)
| BadBody                  (* [response.json()] rejects, or [data.response]
                              is missing and reading it throws *)
| Ok (data : Response.t).

(** A [SpeechSynthesisUtterance] as the component configures it. *)
Module Utterance.
Record t := mk {
  text : jsstring;
  rate : Q;
  pitch : Q;
  volume : Q
}.
End Utterance.

(** The [useState] cells the session core reads or writes. *)
Record State := mkState {
  messages : list Message.t;
  inputMessage : jsstring;
  isLoading : bool;
  selectedModel : jsstring;
  isListening : bool;
  isSpeaking : bool
}.

Definition initialState : State :=
  {| messages := [];
     inputMessage := [];
     isLoading := false;
     selectedModel := lit "claude";
     isListening := false;
     isSpeaking := false |}.

(** What the browser offers.  [webkitSpeechRecognition] decides whether
    [recognitionRef.current] is set.  For speech synthesis, [Faulty] is an
    engine whose [speechSynthesis] property exists but whose utterance
    constructor or [speak] throws: the case the [catch] of [synthesizeVoice]
    is there for. *)
Inductive SpeechSupport := Unsupported | Supported | Faulty.

Record Window := mkWindow {
  webkitSpeechRecognition : bool;
  speechSynthesis : SpeechSupport
}.

Definition speechSynthesis_in_window (win : Window) : bool :=
  match speechSynthesis win with Unsupported => false | _ => true end.

(** ** Commands issued by the handlers *)

Inductive Action :=
| SetMessages (m : Message.t)       (* [setMessages(prev => [...prev, m])] *)
| SetInputMessage (v : jsstring)
| SetIsLoading (b : bool)
| SetSelectedModel (k : jsstring)
| SetIsListening (b : bool)
| SetIsSpeaking (b : bool)
| Fetch (req : Request.t)           (* [fetch(`${API_BASE_URL}/chat`, ...)] *)
| Speak (u : Utterance.t)           (* [speechSynthesis.speak(utterance)] *)
| SpeechCancel                      (* [speechSynthesis.cancel()] *)
| RecognitionStart                  (* [recognitionRef.current.start()] *)
| RecognitionStop                   (* [recognitionRef.current.stop()] *)
| ConsoleError.                     (* [console.error(...)] *)

(** ** The handlers *)

Definition apology : jsstring :=
  lit "Sorry, I'm having trouble connecting right now. Please try again in a moment.".

(** The guard of [sendMessage]: [!inputMessage.trim() || isLoading]. *)
Definition blocked (s : State) : bool :=
  negb (truthy (trim (inputMessage s))) || isLoading s.

(** [sendMessage] up to its first [await].  [now] is what [Date.now()]
    returns and [time] what [new Date().toLocaleTimeString()] returns. *)
Definition sendMessage (s : State) (now : Z) (time : jsstring) : list Action :=
  if blocked s then []
  else
    let userMessage :=
      {| Message.id := now;
         Message.text := inputMessage s;
         Message.sender := user;
         Message.model := None;
         Message.modelInfo := None;
         Message.voiceModel := None;
         Message.timestamp := time;
         Message.processingTime := None;
         Message.error := false |} in
    [ SetMessages userMessage;
      SetInputMessage [];
      SetIsLoading true;
      Fetch {| Request.message := inputMessage s;
               Request.user_id := lit "user_123";
               Request.ctx :=
                 {| Request.selected_model := selectedModel s;
                    Request.conversation_history :=
                      slice_last 5 (messages s) |} |} ].

(** [synthesizeVoice]; it has no suspension point, so all of it runs inside
    the call. *)
Definition synthesizeVoice (win : Window) (text : jsstring) (voiceModel : VoiceModel)
  : list Action :=
  SetIsSpeaking true ::
  match speechSynthesis win with
  | Unsupported => []
  | Supported =>
      [ Speak {| Utterance.text := text;
                 Utterance.rate :=
                   if bool_decide (tempo voiceModel = Some (lit "fast"))
                   then 1.2
                   else if bool_decide
                             (tempo voiceModel = Some (lit "slow_moderate"))
                   then 0.8
                   else 1.0;
                 Utterance.pitch := 1.0;
                 Utterance.volume := 0.8 |} ]
  | Faulty => [ ConsoleError; SetIsSpeaking false ]
  end.

(** [utterance.onend] and [utterance.onerror] *)
Definition utterance_onend : list Action := [ SetIsSpeaking false ].
Definition utterance_onerror : list Action := [ SetIsSpeaking false ].

(** The rest of [sendMessage], run when the [fetch] has settled.  [s] is
    still the state captured when [sendMessage] was called. *)
Definition sendMessage_settled (win : Window) (s : State) (o : FetchOutcome)
    (now : Z) (time : jsstring) : list Action :=
  match o with
  | Ok data =>
      let aiMessage :=
        {| Message.id := now + 1;
           Message.text := Response.text data;
           Message.sender := ai;
           Message.model := Response.selected_model data;
           Message.modelInfo := Response.model_info data;
           Message.voiceModel := Response.voice_model data;
           Message.timestamp := time;
           Message.processingTime := Response.processing_time data;
           Message.error := false |} in
      SetMessages aiMessage ::
      match Response.voice_model data with
      | Some voice_model =>
          if negb (isSpeaking s)
          then synthesizeVoice win (Response.text data) voice_model
          else []
      | None => []
      end
  | NetworkError | HttpError | BadBody =>
      let errorMessage :=
        {| Message.id := now + 1;
           Message.text := apology;
           Message.sender := ai;
           Message.model := Some (lit "error");
           Message.modelInfo := None;
           Message.voiceModel := None;
           Message.timestamp := time;
           Message.processingTime := None;
           Message.error := true |} in
      [ SetMessages errorMessage; ConsoleError ]
  end ++ [ SetIsLoading false ].

Definition startListening (win : Window) (s : State) : list Action :=
  if webkitSpeechRecognition win && negb (isListening s)
  then [ SetIsListening true; RecognitionStart ]
  else [].

Definition stopListening (win : Window) (s : State) : list Action :=
  if webkitSpeechRecognition win && isListening s
  then [ RecognitionStop; SetIsListening false ]
  else [].

Definition stopSpeaking (win : Window) : list Action :=
  if speechSynthesis_in_window win
  then [ SpeechCancel; SetIsSpeaking false ]
  else [].

(** [recognition.onresult], [recognition.onerror], [recognition.onend] *)
Definition recognition_onresult (transcript : jsstring) : list Action :=
  [ SetInputMessage transcript; SetIsListening false ].
Definition recognition_onerror : list Action := [ SetIsListening false ].
Definition recognition_onend : list Action := [ SetIsListening false ].

(** ** The component and its collaborators as a transition system *)

(** A [sendMessage] call suspended at its [fetch]: the state its closure
    captured and the request it sent. *)
Record Pending := mkPending {
  closure : State;
  request : Request.t
}.

(** The store of the component, the [sendMessage] calls in flight, and the
    utterance queue of the speech synthesiser. *)
Record World := mkWorld {
  ui : State;
  inflight : list Pending;
  utterances : list Utterance.t
}.

Definition initialWorld : World :=
  {| ui := initialState; inflight := []; utterances := [] |}.

Definition with_ui (f : State → State) (w : World) : World :=
  {| ui := f (ui w); inflight := inflight w; utterances := utterances w |}.

Definition append_message (m : Message.t) (s : State) : State :=
  {| messages := messages s ++ [m];
     inputMessage := inputMessage s;
     isLoading := isLoading s;
     selectedModel := selectedModel s;
     isListening := isListening s;
     isSpeaking := isSpeaking s |}.

Definition set_inputMessage (v : jsstring) (s : State) : State :=
  {| messages := messages s;
     inputMessage := v;
     isLoading := isLoading s;
     selectedModel := selectedModel s;
     isListening := isListening s;
     isSpeaking := isSpeaking s |}.

Definition set_isLoading (b : bool) (s : State) : State :=
  {| messages := messages s;
     inputMessage := inputMessage s;
     isLoading := b;
     selectedModel := selectedModel s;
     isListening := isListening s;
     isSpeaking := isSpeaking s |}.

Definition set_selectedModel (k : jsstring) (s : State) : State :=
  {| messages := messages s;
     inputMessage := inputMessage s;
     isLoading := isLoading s;
     selectedModel := k;
     isListening := isListening s;
     isSpeaking := isSpeaking s |}.

Definition set_isListening (b : bool) (s : State) : State :=
  {| messages := messages s;
     inputMessage := inputMessage s;
     isLoading := isLoading s;
     selectedModel := selectedModel s;
     isListening := b;
     isSpeaking := isSpeaking s |}.

Definition set_isSpeaking (b : bool) (s : State) : State :=
  {| messages := messages s;
     inputMessage := inputMessage s;
     isLoading := isLoading s;
     selectedModel := selectedModel s;
     isListening := isListening s;
     isSpeaking := b |}.

(** The effect of one command.  [snap] is the closure of the handler that
    issues it; only [Fetch] needs it, to remember what the continuation of
    [sendMessage] will see.  [cancel()] empties the utterance queue; the
    recogniser keeps no state the component reads; [console.error] changes
    nothing. *)
Definition perform (snap : State) (w : World) (a : Action) : World :=
  match a with
  | SetMessages m => with_ui (append_message m) w
  | SetInputMessage v => with_ui (set_inputMessage v) w
  | SetIsLoading b => with_ui (set_isLoading b) w
  | SetSelectedModel k => with_ui (set_selectedModel k) w
  | SetIsListening b => with_ui (set_isListening b) w
  | SetIsSpeaking b => with_ui (set_isSpeaking b) w
  | Fetch req =>
      {| ui := ui w;
         inflight := inflight w ++ [ {| closure := snap; request := req |} ];
         utterances := utterances w |}
  | Speak u =>
      {| ui := ui w; inflight := inflight w; utterances := utterances w ++ [u] |}
  | SpeechCancel =>
      {| ui := ui w; inflight := inflight w; utterances := [] |}
  | RecognitionStart | RecognitionStop | ConsoleError => w
  end.

Definition run (snap : State) (w : World) (acts : list Action) : World :=
  foldl (perform snap) w acts.

Arguments run : simpl never.

(** What can happen to the component. *)
Inductive Event :=
| Typed (v : jsstring)                      (* [onChange] of the input *)
| SelectModel (k : jsstring)                (* click on a persona *)
| Submit (now : Z) (time : jsstring)        (* Enter, or the send button *)
| FetchSettled (i : nat) (o : FetchOutcome) (now : Z) (time : jsstring)
| StartListening
| StopListening
| StopSpeaking
| RecognitionResult (transcript : jsstring)
| RecognitionError
| RecognitionEnd
| PlaybackEnd
| PlaybackError.

Definition drop_inflight (i : nat) (w : World) : World :=
  {| ui := ui w; inflight := delete i (inflight w); utterances := utterances w |}.

Definition pop_utterance (w : World) : option World :=
  match utterances w with
  | [] => None
  | _ :: q => Some {| ui := ui w; inflight := inflight w; utterances := q |}
  end.

(** One event.  [None] means the event cannot occur: a fetch that is not in
    flight cannot settle, a recogniser that does not exist cannot call back,
    and an utterance fires [onend] or [onerror] once, while it is queued (an
    utterance removed by [cancel()] fires nothing more, as the contract of
    the speech output adapter has it).  The handlers themselves may be
    called in any state, whatever the page enables or disables. *)
Definition step (win : Window) (w : World) (ev : Event) : option World :=
  match ev with
  | Typed v => Some (run (ui w) w [ SetInputMessage v ])
  | SelectModel k => Some (run (ui w) w [ SetSelectedModel k ])
  | Submit now time => Some (run (ui w) w (sendMessage (ui w) now time))
  | FetchSettled i o now time =>
      p ← inflight w !! i;
      Some (run (closure p) (drop_inflight i w)
                (sendMessage_settled win (closure p) o now time))
  | StartListening => Some (run (ui w) w (startListening win (ui w)))
  | StopListening => Some (run (ui w) w (stopListening win (ui w)))
  | StopSpeaking => Some (run (ui w) w (stopSpeaking win))
  | RecognitionResult transcript =>
      if webkitSpeechRecognition win
      then Some (run (ui w) w (recognition_onresult transcript))
      else None
  | RecognitionError =>
      if webkitSpeechRecognition win
      then Some (run (ui w) w recognition_onerror)
      else None
  | RecognitionEnd =>
      if webkitSpeechRecognition win
      then Some (run (ui w) w recognition_onend)
      else None
  | PlaybackEnd =>
      w' ← pop_utterance w; Some (run (ui w) w' utterance_onend)
  | PlaybackError =>
      w' ← pop_utterance w; Some (run (ui w) w' utterance_onerror)
  end.

Fixpoint steps (win : Window) (w : World) (evs : list Event) : option World :=
  match evs with
  | [] => Some w
  | ev :: evs' => w' ← step win w ev; steps win w' evs'
  end.

Inductive reachable (win : Window) : World → Prop :=
| reachable_init : reachable win initialWorld
| reachable_step w ev w' :
    reachable win w → step win w ev = Some w' → reachable win w'.

(** ** Invariant of the reachable worlds *)

(** At most one [sendMessage] is suspended, and none when the loading flag
    is off; at most one utterance is queued, and none when the speaking flag
    is off; a suspended call that captured the speaking flag off still sees
    the current value. *)
Definition invariant (w : World) : Prop :=
  length (inflight w) ≤ 1
  ∧ (isLoading (ui w) = false → inflight w = [])
  ∧ length (utterances w) ≤ 1
  ∧ (isSpeaking (ui w) = false → utterances w = [])
  ∧ (∀ p, p ∈ inflight w → isSpeaking (closure p) = false →
          isSpeaking (ui w) = false).

(** ** Sample data *)

(** Two browsers and a clock reading. *)
Definition browser : Window :=
  {| webkitSpeechRecognition := true; speechSynthesis := Supported |}.

Definition silentBrowser : Window :=
  {| webkitSpeechRecognition := true; speechSynthesis := Unsupported |}.

Definition noon : jsstring := lit "12:00:00 PM".

(** The store with [v] typed into the input. *)
Definition typed (v : jsstring) : World :=
  with_ui (set_inputMessage v) initialWorld.

Definition reply : Response.t :=
  {| Response.text := lit "Irie, my friend";
     Response.selected_model := Some (lit "claude");
     Response.model_info := None;
     Response.voice_model := Some {| tempo := Some (lit "fast") |};
     Response.processing_time := Some 0.4%Q |}.

(** The world reached from the initial one by a run of events (the initial
    world again if some event of the run cannot occur). *)
Definition after (win : Window) (evs : list Event) : World :=
  default initialWorld (steps win initialWorld evs).

(** ** Views of the conversation *)

(** The senders of [n] completed exchanges: a user message, then its reply. *)
Fixpoint rounds (n : nat) : list Sender :=
  match n with
  | 0 => []
  | S n' => user :: ai :: rounds n'
  end.

(** The two shapes of message object the component builds: a user message
    has a text that survives [trim] and none of the reply properties; a
    message flagged [error] is the apology of the [catch] branch. *)
Definition wellFormed (m : Message.t) : Prop :=
  match Message.sender m with
  | user =>
      trim (Message.text m) ≠ []
      ∧ Message.model m = None
      ∧ Message.modelInfo m = None
      ∧ Message.voiceModel m = None
      ∧ Message.processingTime m = None
      ∧ Message.error m = false
  | ai =>
      Message.error m = true →
      Message.text m = apology ∧ Message.model m = Some (lit "error")
  end.

(** What a suspended [sendMessage] and the store have to do with each other:
    the store is the one the call captured plus the user message it
    appended, and the request was built from the captured state. *)
Definition awaits (w : World) (p : Pending) : Prop :=
  ∃ userMessage,
    messages (ui w) = messages (closure p) ++ [userMessage]
    ∧ Message.sender userMessage = user
    ∧ Message.text userMessage = Request.message (request p)
    ∧ Request.message (request p) = inputMessage (closure p)
    ∧ Request.selected_model (Request.ctx (request p))
      = selectedModel (closure p)
    ∧ Request.conversation_history (Request.ctx (request p))
      = slice_last 5 (messages (closure p)).

Definition conversation_invariant (w : World) : Prop :=
  (inflight w = [] → isLoading (ui w) = false)
  ∧ (∃ n, Message.sender <$> messages (ui w)
          = rounds n ++ (if isLoading (ui w) then [user] else []))
  ∧ Forall wellFormed (messages (ui w))
  ∧ (∀ p, p ∈ inflight w → awaits w p).

(** ** The buttons and the keyboard *)

(** [disabled] of the send button:
    [isLoading || (!inputMessage.trim() && !isSpeaking)]. *)
Definition sendButton_disabled (s : State) : bool :=
  isLoading s || (negb (truthy (trim (inputMessage s))) && negb (isSpeaking s)).

(** [onClick] of the send button: [isSpeaking ? stopSpeaking : sendMessage]. *)
Definition sendButton_onClick (win : Window) (s : State) (now : Z)
    (time : jsstring) : list Action :=
  if isSpeaking s then stopSpeaking win else sendMessage s now time.

(** [onClick] of the microphone button:
    [isListening ? stopListening : startListening]. *)
Definition micButton_onClick (win : Window) (s : State) : list Action :=
  if isListening s then stopListening win s else startListening win s.

(** [handleKeyPress]: whether [e.preventDefault()] is called, and the
    commands issued. *)
Definition handleKeyPress (s : State) (key : jsstring) (shiftKey : bool)
    (now : Z) (time : jsstring) : bool * list Action :=
  if bool_decide (key = lit "Enter") && negb shiftKey
  then (true, sendMessage s now time)
  else (false, []).

(** ** Personas *)

Module Persona.
Record t := mk {
  name : jsstring;
  description : jsstring;
  color : jsstring;
  textColor : jsstring;
  icon : jsstring;
  genre : jsstring
}.
End Persona.

(** The own properties of [AI_MODELS], in the order [Object.entries] lists
    them. *)
Definition AI_MODELS : list (jsstring * Persona.t) :=
  [ (lit "claude",
     {| Persona.name := lit "Damien Marley";
        Persona.description := lit "Conscious reggae wisdom and cultural insights";
        Persona.color := lit "bg-green-600";
        Persona.textColor := lit "text-green-100";
        Persona.icon := [0xD83C; 0xDFAD]%N;
        Persona.genre := lit "Conscious Reggae" |});
    (lit "gpt4",
     {| Persona.name := lit "Shensea";
        Persona.description := lit "Contemporary dancehall creativity";
        Persona.color := lit "bg-pink-600";
        Persona.textColor := lit "text-pink-100";
        Persona.icon := [0x2728]%N;
        Persona.genre := lit "Dancehall" |});
    (lit "gemini",
     {| Persona.name := lit "Barrington Levy";
        Persona.description := lit "Classic reggae knowledge and experience";
        Persona.color := lit "bg-yellow-600";
        Persona.textColor := lit "text-yellow-100";
        Persona.icon := [0xD83C; 0xDFB5]%N;
        Persona.genre := lit "Classic Reggae" |});
    (lit "grok",
     {| Persona.name := lit "Jaz Elise";
        Persona.description := lit "Modern artistic expression";
        Persona.color := lit "bg-purple-600";
        Persona.textColor := lit "text-purple-100";
        Persona.icon := [0xD83C; 0xDFA8]%N;
        Persona.genre := lit "Contemporary" |});
    (lit "qwen",
     {| Persona.name := lit "Jada Kingdom";
        Persona.description := lit "Bold dancehall perspectives";
        Persona.color := lit "bg-red-600";
        Persona.textColor := lit "text-red-100";
        Persona.icon := [0xD83D; 0xDC51]%N;
        Persona.genre := lit "Dancehall" |});
    (lit "meta",
     {| Persona.name := lit "Buju Banton";
        Persona.description := lit "Spiritual wisdom and cultural depth";
        Persona.color := lit "bg-orange-600";
        Persona.textColor := lit "text-orange-100";
        Persona.icon := [0xD83D; 0xDE4F]%N;
        Persona.genre := lit "Spiritual Reggae" |}) ].

(** The keys the persona buttons are rendered for. *)
Definition personaKeys : list jsstring := AI_MODELS.*1.

(** An event the page can produce: [setSelectedModel] is only called by the
    persona buttons, with the key of their entry. *)
Definition fromPage (ev : Event) : bool :=
  match ev with
  | SelectModel k => bool_decide (k ∈ personaKeys)
  | _ => true
  end.

(** ** Connection check and model list *)

(** The two cells written by the effects run at mount.  [availableModels]
    is [None] when it holds [undefined]. *)
Record Startup := mkStartup {
  connectionStatus : jsstring;
  availableModels : option json
}.

Definition initialStartup : Startup :=
  {| connectionStatus := lit "disconnected";
     availableModels := Some (JObject []) |}.

(** How [fetch(`${API_BASE_URL}/health`)] settles. *)
Inductive HealthOutcome :=
| HealthRejected
| HealthStatus (ok : bool).

(** How [fetch(`${API_BASE_URL}/models`)] settles; [ModelsOk m] carries
    [data.models], [None] if the body has no such property. *)
Inductive ModelsOutcome :=
| ModelsRejected
| ModelsHttpError
| ModelsBadBody
| ModelsOk (models : option json).

Inductive StartupAction :=
| SetConnectionStatus (v : jsstring)
| SetAvailableModels (m : option json)
| LogError.

(** [checkConnection], from the point where its [fetch] has settled. *)
Definition checkConnection (o : HealthOutcome) : list StartupAction :=
  match o with
  | HealthStatus true => [ SetConnectionStatus (lit "connected") ]
  | HealthStatus false => [ SetConnectionStatus (lit "error") ]
  | HealthRejected => [ SetConnectionStatus (lit "error"); LogError ]
  end.

(** [loadAvailableModels], from the point where its [fetch] has settled. *)
Definition loadAvailableModels (o : ModelsOutcome) : list StartupAction :=
  match o with
  | ModelsOk models => [ SetAvailableModels models ]
  | ModelsHttpError => []
  | ModelsRejected | ModelsBadBody => [ LogError ]
  end.

Definition performStartup (st : Startup) (a : StartupAction) : Startup :=
  match a with
  | SetConnectionStatus v =>
      {| connectionStatus := v; availableModels := availableModels st |}
  | SetAvailableModels m =>
      {| connectionStatus := connectionStatus st; availableModels := m |}
  | LogError => st
  end.

Definition runStartup (st : Startup) (acts : list StartupAction) : Startup :=
  foldl performStartup st acts.

(** The text beside the connection dot. *)
Definition connectionLabel (st : Startup) : jsstring :=
  if bool_decide (connectionStatus st = lit "connected") then lit "Connected"
  else if bool_decide (connectionStatus st = lit "error")
       then lit "Connection Error"
       else lit "Connecting...".

(** The class of the connection dot. *)
Definition connectionColor (st : Startup) : jsstring :=
  if bool_decide (connectionStatus st = lit "connected") then lit "bg-green-500"
  else if bool_decide (connectionStatus st = lit "error")
       then lit "bg-red-500"
       else lit "bg-yellow-500".

(** A run used in the examples: one exchange that ends in an error message,
    then a second submission still in flight. *)
Definition twoSubmissions : list Event :=
  [ Typed (lit "Wah gwaan"); Submit 1000 noon;
    FetchSettled 0 HttpError 1200 noon;
    Typed (lit " Yuh good? "); SelectModel (lit "gpt4"); Submit 5000 noon ].

(** * Properties *)

(** Case analysis on [x ∈ [a; b; ...]], dropping the cases where [x] and the
    element have different constructors. *)
Ltac elem_cases H :=
  repeat (apply elem_of_cons in H as [H|H]; [try discriminate H|]);
  try (by apply elem_of_nil in H).

(** ** Lists and strings *)

Lemma slice_last_length {A} (n : nat) (l : list A) :
  length (slice_last n l) = n `min` length l.
Proof. unfold slice_last. rewrite length_drop. lia. Qed.

Lemma slice_last_suffix {A} (n : nat) (l : list A) :
  take (length l - n) l ++ slice_last n l = l.
Proof. apply take_drop. Qed.

Lemma truthy_nonempty (s : jsstring) : truthy s = true ↔ s ≠ [].
Proof. destruct s; simpl; split; congruence. Qed.

Lemma blocked_false (s : State) :
  blocked s = false ↔ trim (inputMessage s) ≠ [] ∧ isLoading s = false.
Proof.
  unfold blocked. rewrite orb_false_iff, negb_false_iff, truthy_nonempty.
  reflexivity.
Qed.

Lemma blocked_true (s : State) :
  blocked s = true ↔ trim (inputMessage s) = [] ∨ isLoading s = true.
Proof.
  unfold blocked. rewrite orb_true_iff, negb_true_iff.
  destruct (trim (inputMessage s)); simpl; intuition congruence.
Qed.

(** ** Submission *)

(** C1, as the code has it.  A submission that passes the guard issues four
    commands in this order: the append of one user message, the clearing of
    the input, the loading flag, and one request.  The request carries the
    submitted text, the selected persona and the last [min 5 length]
    messages, in their order, of the store captured by the handler, that is
    the store before the user message is appended. *)
Theorem sendMessage_submits (win : Window) (w : World) (now : Z) (time : jsstring) :
  blocked (ui w) = false →
  let userMessage :=
    {| Message.id := now;
       Message.text := inputMessage (ui w);
       Message.sender := user;
       Message.model := None;
       Message.modelInfo := None;
       Message.voiceModel := None;
       Message.timestamp := time;
       Message.processingTime := None;
       Message.error := false |} in
  let history := slice_last 5 (messages (ui w)) in
  let req :=
    {| Request.message := inputMessage (ui w);
       Request.user_id := lit "user_123";
       Request.ctx := {| Request.selected_model := selectedModel (ui w);
                         Request.conversation_history := history |} |} in
  sendMessage (ui w) now time
    = [ SetMessages userMessage; SetInputMessage []; SetIsLoading true; Fetch req ]
  ∧ step win w (Submit now time)
    = Some {| ui := {| messages := messages (ui w) ++ [userMessage];
                       inputMessage := [];
                       isLoading := true;
                       selectedModel := selectedModel (ui w);
                       isListening := isListening (ui w);
                       isSpeaking := isSpeaking (ui w) |};
              inflight := inflight w ++ [ {| closure := ui w; request := req |} ];
              utterances := utterances w |}
  ∧ length history = 5 `min` length (messages (ui w))
  ∧ take (length (messages (ui w)) - 5) (messages (ui w)) ++ history
    = messages (ui w).
Proof.
  intros Hguard userMessage history req.
  assert (Hacts : sendMessage (ui w) now time
    = [ SetMessages userMessage; SetInputMessage []; SetIsLoading true; Fetch req ]).
  { unfold sendMessage. rewrite Hguard. reflexivity. }
  split; [exact Hacts|]. split.
  - unfold step. rewrite Hacts. reflexivity.
  - split; [apply slice_last_length | apply slice_last_suffix].
Qed.

Lemma sendMessage_submits_witness :
  blocked (ui (typed (lit "Wah gwaan"))) = false
  ∧ ∃ w', step browser (typed (lit "Wah gwaan")) (Submit 1000 noon) = Some w'
          ∧ inputMessage (ui w') = []
          ∧ Message.text <$> messages (ui w') = [ lit "Wah gwaan" ]
          ∧ (Request.conversation_history ∘ Request.ctx ∘ request) <$> inflight w'
            = [ [] ].
Proof.
  split; [reflexivity|].
  destruct (sendMessage_submits browser (typed (lit "Wah gwaan")) 1000 noon)
    as (_ & Hstep & _); [reflexivity|].
  eexists. split; [exact Hstep|]. repeat split.
Defined.

(** C1 as stated fails: with an empty store, the request of the first
    submission carries an empty history, whereas the last five messages of
    the store holding the user message just appended are that message. *)
Lemma sendMessage_context_is_stale :
  ∃ w' p,
    step browser (typed (lit "Wah gwaan")) (Submit 1000 noon) = Some w'
    ∧ inflight w' = [ p ]
    ∧ Request.conversation_history (Request.ctx (request p)) = []
    ∧ Message.text <$> slice_last 5 (messages (ui w')) = [ lit "Wah gwaan" ]
    ∧ Request.conversation_history (Request.ctx (request p))
      ≠ slice_last 5 (messages (ui w')).
Proof.
  eexists. eexists. split; [reflexivity|].
  split; [reflexivity|]. split; [reflexivity|]. split; [reflexivity|].
  discriminate.
Qed.

(** C3.  A submission while a response is awaited, or with an input that is
    empty once trimmed, does nothing: no command is issued, so no message is
    appended, no request is sent and the world is as it was. *)
Theorem sendMessage_blocked_noop (win : Window) (w : World) (now : Z) (time : jsstring) :
  isLoading (ui w) = true ∨ trim (inputMessage (ui w)) = [] →
  sendMessage (ui w) now time = []
  ∧ step win w (Submit now time) = Some w.
Proof.
  intros Hguard.
  assert (Hb : blocked (ui w) = true) by (apply blocked_true; tauto).
  assert (Hacts : sendMessage (ui w) now time = []).
  { unfold sendMessage. rewrite Hb. reflexivity. }
  split; [exact Hacts|].
  unfold step. rewrite Hacts. reflexivity.
Qed.

Lemma sendMessage_blocked_noop_witness :
  let w := typed (lit "   ") in
  (isLoading (ui w) = true ∨ trim (inputMessage (ui w)) = [])
  ∧ sendMessage (ui w) 1000 noon = []
  ∧ step browser w (Submit 1000 noon) = Some w.
Proof.
  intros w. split; [right; reflexivity|].
  apply sendMessage_blocked_noop. right; reflexivity.
Defined.

(** ** Trimming *)

Lemma trimStart_keeps (c : N) (s : jsstring) :
  c ∈ s → isTrimmed c = false → c ∈ trimStart s.
Proof.
  intros Hin Hc. induction s as [|d s IH]; simpl; [exact Hin|].
  destruct (isTrimmed d) eqn:Hd; [|exact Hin].
  apply elem_of_cons in Hin as [->|Hin]; [congruence|auto].
Qed.

Lemma trimStart_head (s : jsstring) :
  trimStart s ≠ [] → ∃ c, c ∈ s ∧ isTrimmed c = false.
Proof.
  induction s as [|d s IH]; simpl; [congruence|].
  destruct (isTrimmed d) eqn:Hd.
  - intros Hne. destruct (IH Hne) as (c & Hin & Hc).
    exists c. split; [by apply list_elem_of_further | exact Hc].
  - intros _. exists d. split; [apply list_elem_of_here | exact Hd].
Qed.

(** A string survives [trim] exactly when it has a code unit that is neither
    white space nor a line terminator. *)
Lemma trim_nonblank (s : jsstring) :
  trim s ≠ [] ↔ ∃ c, c ∈ s ∧ isTrimmed c = false.
Proof.
  unfold trim, trimEnd. split.
  - intros Hne.
    assert (Hs : trimStart s ≠ []).
    { intros Heq. apply Hne. rewrite Heq. reflexivity. }
    exact (trimStart_head s Hs).
  - intros (c & Hin & Hc) Heq.
    assert (Hin' : c ∈ reverse (trimStart (reverse (trimStart s)))).
    { apply elem_of_reverse, trimStart_keeps; [|exact Hc].
      apply elem_of_reverse, trimStart_keeps; assumption. }
    rewrite Heq in Hin'. by apply elem_of_nil in Hin'.
Qed.

(** C10.  The text is used as typed.  In a submission that passes the guard,
    the user message and the request both hold the input buffer unchanged;
    the guard makes that text non-blank (some code unit of it is neither
    white space nor a line terminator) and nothing more: there is a
    submission whose stored text differs from its trimmed form. *)
Theorem sendMessage_text_untrimmed :
  (∀ (s : State) (now : Z) (time : jsstring),
     blocked s = false →
     ∃ userMessage req,
       sendMessage s now time
         = [ SetMessages userMessage; SetInputMessage []; SetIsLoading true;
             Fetch req ]
       ∧ Message.text userMessage = inputMessage s
       ∧ Request.message req = inputMessage s
       ∧ trim (Message.text userMessage) ≠ []
       ∧ ∃ c, c ∈ Message.text userMessage ∧ isTrimmed c = false)
  ∧ (∃ (s : State) (now : Z) (time : jsstring) userMessage req,
       blocked s = false
       ∧ sendMessage s now time
         = [ SetMessages userMessage; SetInputMessage []; SetIsLoading true;
             Fetch req ]
       ∧ Message.text userMessage ≠ trim (Message.text userMessage)
       ∧ Request.message req ≠ trim (Request.message req)).
Proof.
  split.
  - intros s now time Hguard.
    pose proof (proj1 (blocked_false s) Hguard) as [Hne _].
    unfold sendMessage. rewrite Hguard.
    eexists. eexists. split; [reflexivity|]. simpl.
    split; [reflexivity|]. split; [reflexivity|].
    split; [exact Hne | by apply trim_nonblank].
  - exists (ui (typed (lit "  Wah gwaan "))), 1000%Z, noon.
    eexists. eexists. split; [reflexivity|]. split; [reflexivity|].
    split; discriminate.
Qed.

Lemma sendMessage_text_untrimmed_witness :
  let s := ui (typed (lit "  Wah gwaan ")) in
  blocked s = false
  ∧ ∃ userMessage req,
      sendMessage s 1000 noon
        = [ SetMessages userMessage; SetInputMessage []; SetIsLoading true;
            Fetch req ]
      ∧ Message.text userMessage = lit "  Wah gwaan "
      ∧ Request.message req = lit "  Wah gwaan "
      ∧ trim (Message.text userMessage) = lit "Wah gwaan".
Proof.
  intros s. split; [reflexivity|].
  destruct (proj1 sendMessage_text_untrimmed s 1000%Z noon)
    as (u & req & Hacts & Htext & Hmsg & _); [reflexivity|].
  exists u, req. split; [exact Hacts|].
  split; [exact Htext|]. split; [exact Hmsg|].
  rewrite Htext. reflexivity.
Defined.

(** ** Failure of the backend *)

(** C5.  When the request of a suspended [sendMessage] fails (the fetch
    rejects, the status is not a success, or the body cannot be read), the
    continuation issues three commands: the append of one assistant message
    with the apology text and [error] set, a log line, and the reset of the
    loading flag.  No request is issued again; the input buffer and the
    other flags are as they were, and the call is no longer in flight. *)
Theorem backend_failure_absorbed (win : Window) (w : World) (i : nat) (p : Pending)
    (o : FetchOutcome) (now : Z) (time : jsstring) :
  inflight w !! i = Some p →
  (∀ data, o ≠ Ok data) →
  let errorMessage :=
    {| Message.id := now + 1;
       Message.text := apology;
       Message.sender := ai;
       Message.model := Some (lit "error");
       Message.modelInfo := None;
       Message.voiceModel := None;
       Message.timestamp := time;
       Message.processingTime := None;
       Message.error := true |} in
  sendMessage_settled win (closure p) o now time
    = [ SetMessages errorMessage; ConsoleError; SetIsLoading false ]
  ∧ step win w (FetchSettled i o now time)
    = Some {| ui := {| messages := messages (ui w) ++ [errorMessage];
                       inputMessage := inputMessage (ui w);
                       isLoading := false;
                       selectedModel := selectedModel (ui w);
                       isListening := isListening (ui w);
                       isSpeaking := isSpeaking (ui w) |};
              inflight := delete i (inflight w);
              utterances := utterances w |}.
Proof.
  intros Hp Hfail errorMessage.
  assert (Hacts : sendMessage_settled win (closure p) o now time
    = [ SetMessages errorMessage; ConsoleError; SetIsLoading false ]).
  { destruct o as [| | |data]; try reflexivity. by destruct (Hfail data). }
  split; [exact Hacts|].
  unfold step. rewrite Hp. simpl. rewrite Hacts. reflexivity.
Qed.

Lemma backend_failure_absorbed_witness :
  let w := after browser [ Typed (lit "Wah gwaan"); Submit 1000 noon ] in
  ∃ p w',
    inflight w !! 0 = Some p
    ∧ (∀ data, NetworkError ≠ Ok data)
    ∧ step browser w (FetchSettled 0 NetworkError 1002 noon) = Some w'
    ∧ Message.text <$> messages (ui w') = [ lit "Wah gwaan"; apology ]
    ∧ Message.error <$> messages (ui w') = [ false; true ]
    ∧ inputMessage (ui w') = []
    ∧ isLoading (ui w') = false
    ∧ inflight w' = [].
Proof.
  intros w.
  edestruct (backend_failure_absorbed browser w 0)
    with (o := NetworkError) (now := 1002%Z) (time := noon)
    as [_ Hstep]; [reflexivity | discriminate |].
  eexists. eexists.
  split; [reflexivity|]. split; [discriminate|].
  split; [exact Hstep|]. repeat split.
Defined.

(** ** Voice playback parameters *)

(** C6.  An utterance handed to the synthesiser by [synthesizeVoice] speaks
    the given text at rate 1.2 for tempo [fast], 0.8 for [slow_moderate] and
    1.0 for any other tempo or none, with pitch 1.0 and volume 0.8; it is
    the only utterance of the call. *)
Theorem synthesizeVoice_parameters (win : Window) (text : jsstring)
    (voiceModel : VoiceModel) (u : Utterance.t) :
  Speak u ∈ synthesizeVoice win text voiceModel →
  synthesizeVoice win text voiceModel = [ SetIsSpeaking true; Speak u ]
  ∧ Utterance.text u = text
  ∧ (tempo voiceModel = Some (lit "fast") → Utterance.rate u = 1.2%Q)
  ∧ (tempo voiceModel = Some (lit "slow_moderate") → Utterance.rate u = 0.8%Q)
  ∧ (tempo voiceModel ≠ Some (lit "fast") →
     tempo voiceModel ≠ Some (lit "slow_moderate") →
     Utterance.rate u = 1.0%Q)
  ∧ Utterance.pitch u = 1.0%Q
  ∧ Utterance.volume u = 0.8%Q.
Proof.
  unfold synthesizeVoice. intros Hin.
  apply elem_of_cons in Hin as [Heq|Hin]; [discriminate|].
  destruct (speechSynthesis win).
  - by apply elem_of_nil in Hin.
  - apply list_elem_of_singleton in Hin. injection Hin as ->.
    simpl. repeat split.
    + intros ->. reflexivity.
    + intros ->. reflexivity.
    + intros Hfast Hslow. by rewrite !bool_decide_eq_false_2.
  - apply elem_of_cons in Hin as [Heq|Hin]; [discriminate|].
    apply list_elem_of_singleton in Hin. discriminate.
Qed.

Lemma synthesizeVoice_parameters_witness :
  let fast := {| tempo := Some (lit "fast") |} in
  let u := {| Utterance.text := lit "Irie, my friend";
              Utterance.rate := 1.2; Utterance.pitch := 1.0;
              Utterance.volume := 0.8 |} in
  Speak u ∈ synthesizeVoice browser (lit "Irie, my friend") fast
  ∧ synthesizeVoice browser (lit "Irie, my friend") fast
    = [ SetIsSpeaking true; Speak u ]
  ∧ Utterance.rate u = 1.2%Q.
Proof.
  intros fast u.
  assert (Hin : Speak u ∈ synthesizeVoice browser (lit "Irie, my friend") fast).
  { apply list_elem_of_further, list_elem_of_here. }
  split; [exact Hin|].
  destruct (synthesizeVoice_parameters browser _ fast u Hin) as (Hacts & _).
  split; [exact Hacts | reflexivity].
Defined.

(** ** Voice capture *)

(** C7.  Each callback of the recogniser ends listening.  A result puts the
    transcript in the input buffer and is not submitted: the messages and the
    calls in flight are as before.  An error or the end of recognition leaves
    the input buffer as it was.  Nothing else changes. *)
Theorem recognition_callbacks_end_listening (win : Window) (w : World) (ev : Event) :
  webkitSpeechRecognition win = true →
  ev = RecognitionError ∨ ev = RecognitionEnd
  ∨ (∃ transcript, ev = RecognitionResult transcript) →
  step win w ev
  = Some {| ui := {| messages := messages (ui w);
                     inputMessage :=
                       match ev with
                       | RecognitionResult transcript => transcript
                       | _ => inputMessage (ui w)
                       end;
                     isLoading := isLoading (ui w);
                     selectedModel := selectedModel (ui w);
                     isListening := false;
                     isSpeaking := isSpeaking (ui w) |};
            inflight := inflight w;
            utterances := utterances w |}.
Proof.
  intros Hrec [->|[->|[transcript ->]]]; unfold step; rewrite Hrec; reflexivity.
Qed.

Lemma recognition_callbacks_end_listening_witness :
  let w := after browser [ Typed (lit "Wah"); StartListening ] in
  isListening (ui w) = true
  ∧ webkitSpeechRecognition browser = true
  ∧ (∃ w', step browser w RecognitionError = Some w'
           ∧ isListening (ui w') = false
           ∧ inputMessage (ui w') = lit "Wah")
  ∧ (∃ w', step browser w (RecognitionResult (lit "gwaan")) = Some w'
           ∧ isListening (ui w') = false
           ∧ inputMessage (ui w') = lit "gwaan"
           ∧ messages (ui w') = []
           ∧ inflight w' = []).
Proof.
  intros w. split; [reflexivity|]. split; [reflexivity|]. split.
  - eexists. split.
    + apply recognition_callbacks_end_listening; [reflexivity | by left].
    + split; reflexivity.
  - eexists. split.
    + apply recognition_callbacks_end_listening;
        [reflexivity | right; right; by eexists].
    + repeat split.
Defined.

(** ** Stopping what is not running *)

(** C9.  [stopListening] while not listening and [stopSpeaking] while not
    speaking complete without error and leave every state cell (the mode
    flags, the input buffer, the messages) and the calls in flight as they
    were. *)
Theorem stop_when_inactive_noop (win : Window) (w : World) (ev : Event) :
  ev = StopListening ∧ isListening (ui w) = false
  ∨ ev = StopSpeaking ∧ isSpeaking (ui w) = false →
  ∃ w', step win w ev = Some w' ∧ ui w' = ui w ∧ inflight w' = inflight w.
Proof.
  intros [[-> Hoff]|[-> Hoff]]; unfold step.
  - unfold stopListening. rewrite Hoff, andb_false_r.
    exists w. done.
  - unfold stopSpeaking. destruct (speechSynthesis_in_window win).
    + eexists. split; [reflexivity|]. simpl. split; [|reflexivity].
      destruct (ui w); simpl in *. by subst.
    + exists w. done.
Qed.

Lemma stop_when_inactive_noop_witness :
  let w := typed (lit "Wah gwaan") in
  (StopSpeaking = StopListening ∧ isListening (ui w) = false
   ∨ StopSpeaking = StopSpeaking ∧ isSpeaking (ui w) = false)
  ∧ ∃ w', step browser w StopSpeaking = Some w'
          ∧ ui w' = ui w ∧ inflight w' = inflight w.
Proof.
  intros w.
  assert (H : StopSpeaking = StopListening ∧ isListening (ui w) = false
              ∨ StopSpeaking = StopSpeaking ∧ isSpeaking (ui w) = false).
  { right. split; reflexivity. }
  split; [exact H|].
  exact (stop_when_inactive_noop browser w StopSpeaking H).
Defined.

(** ** The conversation only grows *)

Lemma perform_append_only (snap : State) (w : World) (a : Action) :
  messages (ui w) `prefix_of` messages (ui (perform snap w a)).
Proof.
  destruct a; simpl; try reflexivity.
  by apply prefix_app_r.
Qed.

Lemma run_append_only (snap : State) (acts : list Action) (w : World) :
  messages (ui w) `prefix_of` messages (ui (run snap w acts)).
Proof.
  revert w. induction acts as [|a acts IH]; intros w; [reflexivity|].
  etrans; [apply (perform_append_only snap w a) | apply IH].
Qed.

Lemma pop_utterance_ui (w w' : World) :
  pop_utterance w = Some w' → ui w' = ui w ∧ inflight w' = inflight w.
Proof.
  unfold pop_utterance. destruct (utterances w); [discriminate|].
  intros [= <-]. done.
Qed.

(** Whatever happens, the messages already in the store stay where they
    are, unchanged: the old store is a prefix of the new one. *)
Lemma step_append_only (win : Window) (w w' : World) (ev : Event) :
  step win w ev = Some w' → messages (ui w) `prefix_of` messages (ui w').
Proof.
  destruct ev as [v|k|now time|i o now time| | | |transcript| | | |];
    simpl; intros Hstep;
    repeat match goal with
    | H : (if ?b then _ else _) = Some _ |- _ => destruct b; [|discriminate H]
    | H : Some _ = Some _ |- _ => injection H as <-
    end;
    try apply run_append_only.
  - destruct (inflight w !! i) as [p|]; [|discriminate]. simpl in Hstep.
    injection Hstep as <-.
    apply (run_append_only _ _ (drop_inflight i w)).
  - destruct (pop_utterance w) as [w1|] eqn:Hpop; [|discriminate].
    simpl in Hstep. injection Hstep as <-.
    apply pop_utterance_ui in Hpop as [<- _]. apply run_append_only.
  - destruct (pop_utterance w) as [w1|] eqn:Hpop; [|discriminate].
    simpl in Hstep. injection Hstep as <-.
    apply pop_utterance_ui in Hpop as [<- _]. apply run_append_only.
Qed.

Lemma steps_append_only (win : Window) (evs : list Event) (w w' : World) :
  steps win w evs = Some w' → messages (ui w) `prefix_of` messages (ui w').
Proof.
  revert w. induction evs as [|ev evs IH]; intros w; simpl.
  - intros [= <-]. reflexivity.
  - destruct (step win w ev) as [w1|] eqn:Hstep; [|discriminate]. simpl.
    intros Hrest. etrans; [by eapply step_append_only | by apply IH].
Qed.

(** C2 fails on the ids.  [Date.now()] names a user message and
    [Date.now() + 1] its reply, so a submission made one millisecond after a
    reply was built gets the id of that reply: here the error message of the
    first exchange and the second user message are both 1001. *)
Theorem message_ids_collide :
  ∃ w,
    steps browser initialWorld
      [ Typed (lit "Wah gwaan"); Submit 1000 noon;
        FetchSettled 0 NetworkError 1000 noon;
        Typed (lit "Yuh deh deh?"); Submit 1001 noon ] = Some w
    ∧ Message.sender <$> messages (ui w) = [ user; ai; user ]
    ∧ Message.id <$> messages (ui w) = [ 1000; 1001; 1001 ]%Z.
Proof. eexists. split; [reflexivity|]. split; reflexivity. Qed.

(** ** One request in flight, one utterance queued *)

Lemma invariant_init : invariant initialWorld.
Proof.
  unfold invariant; simpl. repeat split; auto.
Qed.

Lemma step_invariant (win : Window) (w w' : World) (ev : Event) :
  invariant w → step win w ev = Some w' → invariant w'.
Proof.
  destruct w as [s infl utts]. unfold invariant at 1; simpl.
  intros (Hfl & Hld & Hq & Hspk & Hcl) Hstep.
  destruct ev as [v|k|now time|i o now time| | | |transcript| | | |];
    unfold step in Hstep; simpl in Hstep.
  - injection Hstep as <-. unfold invariant, run; simpl. done.
  - injection Hstep as <-. unfold invariant, run; simpl. done.
  - injection Hstep as <-. unfold sendMessage.
    destruct (blocked s) eqn:Hb; unfold invariant, run; simpl; [done|].
    apply blocked_false in Hb as [_ Hidle]. rewrite (Hld Hidle). simpl.
    repeat split; auto; try done.
    intros p Hp. apply list_elem_of_singleton in Hp as ->. done.
  - destruct infl as [|p [|p' rest]]; simpl in Hfl; [| |lia].
    { destruct i; discriminate. }
    destruct i as [|i]; simpl in Hstep; [|destruct i; discriminate].
    injection Hstep as <-.
    assert (Hnone : ∀ q : Pending, q ∈ @nil Pending → isSpeaking (closure q) = false → False).
    { intros q Hin. by apply elem_of_nil in Hin. }
    destruct o as [| | |data]; unfold invariant, run, drop_inflight; simpl;
      try (repeat split; auto; naive_solver).
    destruct (Response.voice_model data) as [vm|]; simpl;
      [|repeat split; auto; naive_solver].
    destruct (isSpeaking (closure p)) eqn:Hc; simpl;
      [repeat split; auto; naive_solver|].
    assert (Hoff : isSpeaking s = false).
    { apply (Hcl p); [apply list_elem_of_here | exact Hc]. }
    rewrite (Hspk Hoff). unfold synthesizeVoice.
    destruct (speechSynthesis win); simpl; repeat split; auto; naive_solver.
  - injection Hstep as <-. unfold startListening.
    destruct (webkitSpeechRecognition win && negb (isListening s));
      unfold invariant, run; simpl; done.
  - injection Hstep as <-. unfold stopListening.
    destruct (webkitSpeechRecognition win && isListening s);
      unfold invariant, run; simpl; done.
  - injection Hstep as <-. unfold stopSpeaking.
    destruct (speechSynthesis_in_window win);
      unfold invariant, run; simpl; [|done].
    repeat split; auto; lia.
  - destruct (webkitSpeechRecognition win); [|discriminate].
    injection Hstep as <-. unfold invariant, run; simpl. done.
  - destruct (webkitSpeechRecognition win); [|discriminate].
    injection Hstep as <-. unfold invariant, run; simpl. done.
  - destruct (webkitSpeechRecognition win); [|discriminate].
    injection Hstep as <-. unfold invariant, run; simpl. done.
  - unfold pop_utterance in Hstep; simpl in Hstep.
    destruct utts as [|u [|u' q]]; simpl in Hq; [discriminate| |lia].
    injection Hstep as <-. unfold invariant, run; simpl.
    repeat split; auto; lia.
  - unfold pop_utterance in Hstep; simpl in Hstep.
    destruct utts as [|u [|u' q]]; simpl in Hq; [discriminate| |lia].
    injection Hstep as <-. unfold invariant, run; simpl.
    repeat split; auto; lia.
Qed.

Lemma steps_invariant (win : Window) (evs : list Event) (w w' : World) :
  invariant w → steps win w evs = Some w' → invariant w'.
Proof.
  revert w. induction evs as [|ev evs IH]; intros w Hinv; simpl.
  - by intros [= <-].
  - destruct (step win w ev) as [w1|] eqn:Hstep; [|discriminate]. simpl.
    apply IH. by eapply step_invariant.
Qed.

Lemma steps_reachable (win : Window) (evs : list Event) (w w' : World) :
  reachable win w → steps win w evs = Some w' → reachable win w'.
Proof.
  revert w. induction evs as [|ev evs IH]; intros w Hreach; simpl.
  - by intros [= <-].
  - destruct (step win w ev) as [w1|] eqn:Hstep; [|discriminate]. simpl.
    apply IH. by eapply reachable_step.
Qed.

Lemma reachable_invariant (win : Window) (w : World) :
  reachable win w → invariant w.
Proof.
  induction 1 as [|w ev w' _ IH Hstep]; [apply invariant_init|].
  by eapply step_invariant.
Qed.

(** In a reachable world the queue of the synthesiser is empty when the
    component is not speaking, so stopping what is not running changes
    nothing at all, the queue included. *)
Lemma stop_when_inactive_reachable (win : Window) (w : World) (ev : Event) :
  reachable win w →
  ev = StopListening ∧ isListening (ui w) = false
  ∨ ev = StopSpeaking ∧ isSpeaking (ui w) = false →
  step win w ev = Some w.
Proof.
  intros Hreach Hev.
  apply reachable_invariant in Hreach as (_ & _ & _ & Hspk & _).
  destruct w as [s infl utts]; simpl in *.
  destruct Hev as [[-> Hoff]|[-> Hoff]]; unfold step; simpl.
  - unfold stopListening. rewrite Hoff, andb_false_r. reflexivity.
  - unfold stopSpeaking. rewrite (Hspk Hoff).
    destruct (speechSynthesis_in_window win); unfold run; simpl; [|done].
    destruct s; simpl in *. by subst.
Qed.

(** ** Playback after a reply *)

(** C8.  In every world the component can reach, at most one utterance is
    queued.  When the reply to a call in flight arrives and its continuation
    hands an utterance to the synthesiser, the reply carries a voice model,
    the component is not speaking and the queue is empty, and the commands
    are, in this order, the append of the assistant message, the speaking
    flag, the utterance and the reset of the loading flag.  When the reply
    arrives while the component is speaking, no utterance is handed over and
    the queue stays as it is. *)
Theorem playback_exclusive (win : Window) (evs : list Event) (w : World) :
  steps win initialWorld evs = Some w →
  length (utterances w) ≤ 1
  ∧ ∀ (i : nat) (p : Pending) (data : Response.t) (now : Z) (time : jsstring),
      inflight w !! i = Some p →
      let acts := sendMessage_settled win (closure p) (Ok data) now time in
      (∀ u, Speak u ∈ acts →
         is_Some (Response.voice_model data)
         ∧ isSpeaking (ui w) = false
         ∧ utterances w = []
         ∧ ∃ aiMessage,
             acts = [ SetMessages aiMessage; SetIsSpeaking true; Speak u;
                      SetIsLoading false ]
             ∧ Message.sender aiMessage = ai
             ∧ Message.text aiMessage = Response.text data
             ∧ Utterance.text u = Response.text data)
      ∧ (isSpeaking (ui w) = true → ∀ u, Speak u ∉ acts)
      ∧ ∃ w', step win w (FetchSettled i (Ok data) now time) = Some w'
              ∧ length (utterances w') ≤ 1
              ∧ (isSpeaking (ui w) = true → utterances w' = utterances w).
Proof.
  intros Hsteps.
  assert (Hinv : invariant w).
  { eapply steps_invariant; [apply invariant_init | exact Hsteps]. }
  pose proof Hinv as (_ & _ & Hq & Hspk & Hcl).
  split; [exact Hq|].
  intros i p data now time Hp acts.
  assert (Hin : p ∈ inflight w) by (by eapply list_elem_of_lookup_2).
  assert (Hstep : ∃ w', step win w (FetchSettled i (Ok data) now time) = Some w').
  { unfold step. rewrite Hp. simpl. by eexists. }
  destruct Hstep as [w' Hstep].
  assert (Hq' : length (utterances w') ≤ 1).
  { by destruct (step_invariant win w w' _ Hinv Hstep) as (_ & _ & ? & _). }
  assert (Hclosure : isSpeaking (ui w) = true → isSpeaking (closure p) = true).
  { intros Hon. destruct (isSpeaking (closure p)) eqn:Hc; [done|].
    rewrite (Hcl p Hin Hc) in Hon. discriminate. }
  assert (Hdrop : isSpeaking (closure p) = true →
    acts = [ SetMessages
               {| Message.id := now + 1;
                  Message.text := Response.text data;
                  Message.sender := ai;
                  Message.model := Response.selected_model data;
                  Message.modelInfo := Response.model_info data;
                  Message.voiceModel := Response.voice_model data;
                  Message.timestamp := time;
                  Message.processingTime := Response.processing_time data;
                  Message.error := false |};
             SetIsLoading false ]).
  { intros Hc. subst acts. unfold sendMessage_settled. rewrite Hc.
    by destruct (Response.voice_model data). }
  split; [|split].
  - intros u Hu.
    destruct (isSpeaking (closure p)) eqn:Hc.
    { rewrite (Hdrop eq_refl) in Hu. elem_cases Hu. }
    pose proof (Hcl p Hin Hc) as Hoff.
    subst acts. unfold sendMessage_settled in *. rewrite Hc in *. simpl in *.
    destruct (Response.voice_model data) as [vm|]; simpl in *.
    + split; [by eexists|]. split; [exact Hoff|]. split; [by apply Hspk|].
      unfold synthesizeVoice in *.
      destruct (speechSynthesis win); simpl in *; elem_cases Hu.
      injection Hu as ->. by eexists.
    + elem_cases Hu.
  - intros Hon u Hu. rewrite (Hdrop (Hclosure Hon)) in Hu. elem_cases Hu.
  - exists w'. split; [exact Hstep|]. split; [exact Hq'|].
    intros Hon. unfold step in Hstep. rewrite Hp in Hstep. simpl in Hstep.
    fold acts in Hstep. rewrite (Hdrop (Hclosure Hon)) in Hstep.
    by injection Hstep as <-.
Qed.

Lemma playback_exclusive_witness :
  let evs := [ Typed (lit "Wah gwaan"); Submit 1000 noon ] in
  ∃ w w',
    steps browser initialWorld evs = Some w
    ∧ length (utterances w) ≤ 1
    ∧ step browser w (FetchSettled 0 (Ok reply) 1400 noon) = Some w'
    ∧ length (utterances w') ≤ 1.
Proof.
  intros evs.
  destruct (steps browser initialWorld evs) as [w|] eqn:Hw; [|discriminate].
  destruct (playback_exclusive browser evs w Hw) as [Hq Hreply].
  vm_compute in Hw. injection Hw as <-.
  edestruct (Hreply 0) with (data := reply) (now := 1400%Z) (time := noon)
    as (_ & _ & w' & Hstep & Hq' & _); [reflexivity|].
  eexists. exists w'. split; [reflexivity|]. split; [exact Hq|]. done.
Defined.

(** ** Playback that cannot end *)

Lemma synthesizeVoice_unsupported (win : Window) (text : jsstring)
    (voiceModel : VoiceModel) :
  speechSynthesis win = Unsupported →
  synthesizeVoice win text voiceModel = [ SetIsSpeaking true ].
Proof. unfold synthesizeVoice. by intros ->. Qed.

(** Where the synthesiser exists, the end or the failure of the queued
    utterance clears the speaking flag. *)
Lemma playback_event_ends_speaking (win : Window) (w w' : World) (ev : Event) :
  ev = PlaybackEnd ∨ ev = PlaybackError →
  step win w ev = Some w' → isSpeaking (ui w') = false.
Proof.
  intros [->| ->]; unfold step, pop_utterance;
    destruct (utterances w); simpl; try discriminate;
    by intros [= <-].
Qed.

Section WithoutSynthesis.
Variable win : Window.
Hypothesis no_engine : speechSynthesis win = Unsupported.

(** Without a synthesiser, a component that is speaking with an empty queue
    stays so whatever happens next. *)
Lemma step_speaking_stuck (w w' : World) (ev : Event) :
  isSpeaking (ui w) = true → utterances w = [] →
  step win w ev = Some w' →
  isSpeaking (ui w') = true ∧ utterances w' = [].
Proof.
  destruct w as [s infl utts]. simpl. intros Hon -> Hstep.
  destruct ev as [v|k|now time|i o now time| | | |transcript| | | |];
    unfold step in Hstep; simpl in Hstep.
  - injection Hstep as <-. unfold run; simpl. done.
  - injection Hstep as <-. unfold run; simpl. done.
  - injection Hstep as <-. unfold sendMessage.
    destruct (blocked s); unfold run; simpl; done.
  - destruct (infl !! i) as [p|]; simpl in Hstep; [|discriminate].
    injection Hstep as <-.
    unfold sendMessage_settled, synthesizeVoice. rewrite no_engine.
    destruct o as [| | |data]; unfold run; simpl; try done.
    destruct (Response.voice_model data), (isSpeaking (closure p)); simpl; done.
  - injection Hstep as <-. unfold startListening.
    destruct (webkitSpeechRecognition win && negb (isListening s));
      unfold run; simpl; done.
  - injection Hstep as <-. unfold stopListening.
    destruct (webkitSpeechRecognition win && isListening s);
      unfold run; simpl; done.
  - injection Hstep as <-.
    unfold stopSpeaking, speechSynthesis_in_window. rewrite no_engine.
    unfold run; simpl. done.
  - destruct (webkitSpeechRecognition win); [|discriminate].
    injection Hstep as <-. unfold run; simpl. done.
  - destruct (webkitSpeechRecognition win); [|discriminate].
    injection Hstep as <-. unfold run; simpl. done.
  - destruct (webkitSpeechRecognition win); [|discriminate].
    injection Hstep as <-. unfold run; simpl. done.
  - discriminate.
  - discriminate.
Qed.

Lemma steps_speaking_stuck (evs : list Event) (w w' : World) :
  isSpeaking (ui w) = true → utterances w = [] →
  steps win w evs = Some w' →
  isSpeaking (ui w') = true ∧ utterances w' = [].
Proof.
  revert w. induction evs as [|ev evs IH]; intros w Hon Hq; simpl.
  - by intros [= <-].
  - destruct (step win w ev) as [w1|] eqn:Hstep; [|discriminate]. simpl.
    destruct (step_speaking_stuck w w1 ev Hon Hq Hstep) as [Hon1 Hq1].
    by apply IH.
Qed.

End WithoutSynthesis.

(** C4 fails in a browser without speech synthesis.  [synthesizeVoice] sets
    the speaking flag before it looks for the engine, and [stopSpeaking] does
    nothing without the engine: after a reply that carries a voice model the
    component is speaking, and it is still speaking after any further run of
    events. *)
Theorem speaking_never_ends_without_synthesis :
  ∃ w,
    steps silentBrowser initialWorld
      [ Typed (lit "Wah gwaan"); Submit 1000 noon;
        FetchSettled 0 (Ok reply) 1400 noon ] = Some w
    ∧ isLoading (ui w) = false
    ∧ isSpeaking (ui w) = true
    ∧ utterances w = []
    ∧ (∃ w', step silentBrowser w StopSpeaking = Some w'
             ∧ isSpeaking (ui w') = true)
    ∧ ∀ evs w', steps silentBrowser w evs = Some w' → isSpeaking (ui w') = true.
Proof.
  eexists. split; [reflexivity|].
  split; [reflexivity|]. split; [reflexivity|]. split; [reflexivity|].
  split.
  - eexists. split; reflexivity.
  - intros evs w' Hsteps.
    by eapply (steps_speaking_stuck silentBrowser) in Hsteps as [Hon _].
Qed.

(** * Further properties of the session core *)

(** ** The conversation as a sequence of exchanges *)

Lemma rounds_snoc (n : nat) : rounds n ++ [ user; ai ] = rounds (S n).
Proof. induction n as [|n IH]; simpl; [reflexivity|]. by rewrite IH. Qed.

Lemma conversation_invariant_init : conversation_invariant initialWorld.
Proof.
  unfold conversation_invariant; simpl. split; [done|]. split.
  - by exists 0.
  - split; [constructor|]. intros p Hp. by apply elem_of_nil in Hp.
Qed.

(** The invariant only looks at the messages, the loading flag and the calls
    in flight. *)
Lemma conversation_invariant_ext (w w' : World) :
  messages (ui w') = messages (ui w) →
  isLoading (ui w') = isLoading (ui w) →
  inflight w' = inflight w →
  conversation_invariant w → conversation_invariant w'.
Proof.
  unfold conversation_invariant, awaits.
  intros -> -> ->. done.
Qed.

Lemma step_conversation_invariant (win : Window) (w w' : World) (ev : Event) :
  invariant w → conversation_invariant w →
  step win w ev = Some w' → conversation_invariant w'.
Proof.
  intros (Hfl & Hld & _) Hconv Hstep.
  destruct ev as [v|k|now time|i o now time| | | |transcript| | | |];
    unfold step in Hstep.
  - injection Hstep as <-. by eapply conversation_invariant_ext.
  - injection Hstep as <-. by eapply conversation_invariant_ext.
  - injection Hstep as <-. unfold sendMessage.
    destruct (blocked (ui w)) eqn:Hb; [exact Hconv|].
    apply blocked_false in Hb as [Hne Hidle].
    destruct Hconv as (_ & [n Hn] & Hwf & _).
    pose proof (Hld Hidle) as Hnone.
    destruct w as [s infl utts]; simpl in *. subst infl.
    rewrite Hidle in Hn.
    unfold conversation_invariant, awaits, run; simpl.
    split; [done|]. split; [|split].
    + exists n. rewrite fmap_app, Hn, app_nil_r. reflexivity.
    + apply Forall_app. split; [exact Hwf|].
      apply Forall_singleton. unfold wellFormed; simpl. done.
    + intros p Hp. apply list_elem_of_singleton in Hp as ->. simpl.
      eexists. split; [reflexivity|]. done.
  - destruct (inflight w !! i) as [p|] eqn:Hp; simpl in Hstep; [|discriminate].
    injection Hstep as <-.
    destruct Hconv as (_ & [n Hn] & Hwf & _).
    destruct w as [s infl utts]; simpl in *.
    destruct infl as [|p0 [|p1 rest]]; simpl in Hfl; [done| |lia].
    destruct i as [|i]; simpl in Hp; [|by destruct i].
    injection Hp as ->.
    assert (Hbusy : isLoading s = true).
    { destruct (isLoading s); [done|]. by specialize (Hld eq_refl). }
    rewrite Hbusy in Hn.
    assert (Hsenders : ∀ m, Message.sender m = ai →
      Message.sender <$> (messages s ++ [m]) = rounds (S n) ++ []).
    { intros m Hm. rewrite fmap_app, Hn, app_nil_r, <- rounds_snoc. simpl.
      rewrite Hm, <- app_assoc. reflexivity. }
    assert (Hnone : ∀ q : Pending, q ∈ @nil Pending → awaits
       {| ui := s; inflight := []; utterances := utts |} q → False).
    { intros q Hin. by apply elem_of_nil in Hin. }
    unfold conversation_invariant, awaits.
    unfold sendMessage_settled, synthesizeVoice, drop_inflight.
    destruct o as [| | |data]; unfold run; simpl.
    1-3: (split; [done|]; split; [eexists; by apply Hsenders|];
          split; [apply Forall_app; split; [exact Hwf|];
                  apply Forall_singleton; unfold wellFormed; by simpl
                 |intros q Hin; by apply elem_of_nil in Hin]).
    destruct (Response.voice_model data) as [vm|],
             (isSpeaking (closure p)), (speechSynthesis win); simpl;
      (split; [done|]; split; [eexists; by apply Hsenders|];
       split; [apply Forall_app; split; [exact Hwf|];
               apply Forall_singleton; unfold wellFormed; by simpl
              |intros q Hin; by apply elem_of_nil in Hin]).
  - injection Hstep as <-. unfold startListening.
    destruct (webkitSpeechRecognition win && negb (isListening (ui w)));
      by eapply conversation_invariant_ext.
  - injection Hstep as <-. unfold stopListening.
    destruct (webkitSpeechRecognition win && isListening (ui w));
      by eapply conversation_invariant_ext.
  - injection Hstep as <-. unfold stopSpeaking.
    destruct (speechSynthesis_in_window win);
      by eapply conversation_invariant_ext.
  - destruct (webkitSpeechRecognition win); [|discriminate].
    injection Hstep as <-. by eapply conversation_invariant_ext.
  - destruct (webkitSpeechRecognition win); [|discriminate].
    injection Hstep as <-. by eapply conversation_invariant_ext.
  - destruct (webkitSpeechRecognition win); [|discriminate].
    injection Hstep as <-. by eapply conversation_invariant_ext.
  - destruct (pop_utterance w) as [w1|] eqn:Hpop; simpl in Hstep; [|discriminate].
    injection Hstep as <-.
    apply pop_utterance_ui in Hpop as [Hui Hfl1].
    eapply conversation_invariant_ext; [..|exact Hconv];
      unfold run; simpl; by rewrite ?Hui, ?Hfl1.
  - destruct (pop_utterance w) as [w1|] eqn:Hpop; simpl in Hstep; [|discriminate].
    injection Hstep as <-.
    apply pop_utterance_ui in Hpop as [Hui Hfl1].
    eapply conversation_invariant_ext; [..|exact Hconv];
      unfold run; simpl; by rewrite ?Hui, ?Hfl1.
Qed.

Lemma steps_conversation_invariant (win : Window) (evs : list Event) (w : World) :
  steps win initialWorld evs = Some w →
  invariant w ∧ conversation_invariant w.
Proof.
  assert (Hgen : ∀ w0, invariant w0 → conversation_invariant w0 →
    steps win w0 evs = Some w → invariant w ∧ conversation_invariant w).
  { induction evs as [|ev evs IH]; intros w0 Hinv Hconv; simpl.
    - by intros [= <-].
    - destruct (step win w0 ev) as [w1|] eqn:Hstep; [|discriminate]. simpl.
      apply IH.
      + by eapply step_invariant.
      + by eapply step_conversation_invariant. }
  apply Hgen; [apply invariant_init | apply conversation_invariant_init].
Qed.

Lemma run_snoc (snap : State) (w : World) (acts : list Action) (a : Action) :
  run snap w (acts ++ [a]) = perform snap (run snap w acts) a.
Proof. unfold run. by rewrite foldl_app. Qed.

(** X1.  An exchange, whatever its outcome, adds exactly two messages to the
    store: the user message, then one assistant message, which is flagged
    as an error exactly when the fetch did not succeed.  With a clock that
    does not go back between the two, the reply has the larger id.
    Afterwards the input is empty, the loading flag is off and the calls in
    flight are those of before. *)
Theorem exchange_appends_pair (win : Window) (w : World) (o : FetchOutcome)
    (now : Z) (time : jsstring) (now' : Z) (time' : jsstring) :
  blocked (ui w) = false →
  ∃ w1 w2 userMessage replyMessage,
    step win w (Submit now time) = Some w1
    ∧ step win w1 (FetchSettled (length (inflight w)) o now' time') = Some w2
    ∧ messages (ui w2) = messages (ui w) ++ [ userMessage; replyMessage ]
    ∧ Message.sender userMessage = user
    ∧ Message.text userMessage = inputMessage (ui w)
    ∧ Message.id userMessage = now
    ∧ Message.sender replyMessage = ai
    ∧ Message.id replyMessage = (now' + 1)%Z
    ∧ Message.error replyMessage
      = match o with Ok _ => false | _ => true end
    ∧ ((now ≤ now')%Z → (Message.id userMessage < Message.id replyMessage)%Z)
    ∧ inputMessage (ui w2) = []
    ∧ isLoading (ui w2) = false
    ∧ inflight w2 = inflight w.
Proof.
  intros Hguard. destruct w as [[msgs inp ld sel lis spk] infl utts].
  simpl in *. unfold sendMessage. rewrite Hguard.
  assert (Hlook : ∀ p : Pending, (infl ++ [p]) !! length infl = Some p).
  { intros p. by apply list_lookup_middle. }
  assert (Hdel : ∀ p : Pending, delete (length infl) (infl ++ [p]) = infl).
  { intros p. by rewrite (delete_middle infl []), app_nil_r. }
  destruct o as [| | |data].
  4: destruct (Response.voice_model data) as [vm|] eqn:Hvm, spk,
              (speechSynthesis win) eqn:Hwin.
  all: unfold run; simpl.
  all: eexists; eexists; eexists; eexists; (split; [reflexivity|]).
  all: simpl; rewrite Hlook; simpl; unfold drop_inflight; simpl; rewrite Hdel.
  all: unfold sendMessage_settled, synthesizeVoice, run; simpl;
       rewrite ?Hvm, ?Hwin; simpl.
  all: split; [reflexivity|]; simpl; rewrite <- app_assoc; simpl.
  all: split; [reflexivity|]; simpl; repeat split; lia.
Qed.

Lemma exchange_appends_pair_witness :
  let w := typed (lit "Wah gwaan") in
  blocked (ui w) = false
  ∧ ∃ w2,
      steps browser w [ Submit 1000 noon; FetchSettled 0 (Ok reply) 1400 noon ]
        = Some w2
      ∧ Message.text <$> messages (ui w2)
        = [ lit "Wah gwaan"; lit "Irie, my friend" ]
      ∧ Message.id <$> messages (ui w2) = [ 1000; 1401 ]%Z
      ∧ isLoading (ui w2) = false.
Proof.
  intros w. split; [reflexivity|].
  destruct (exchange_appends_pair browser w (Ok reply) 1000 noon 1400 noon)
    as (w1 & w2 & u & r & H1 & H2 & _); [reflexivity|].
  vm_compute in H1. injection H1 as <-.
  vm_compute in H2. injection H2 as <-.
  eexists. split; [reflexivity|]. repeat split.
Defined.

(** X2.  When the request of a suspended [sendMessage] succeeds, one
    assistant message is appended that carries the text, persona, persona
    info, voice model and processing time of the response, with id
    [Date.now() + 1] and no error flag; the loading flag goes off, the call is
    no longer in flight, and the input, the persona selection and the
    listening flag are as they were.  If the response has no voice model, or
    the call was made while speaking, playback is left alone. *)
Theorem reply_success_appended (win : Window) (w : World) (i : nat) (p : Pending)
    (data : Response.t) (now : Z) (time : jsstring) :
  inflight w !! i = Some p →
  ∃ w',
    step win w (FetchSettled i (Ok data) now time) = Some w'
    ∧ messages (ui w')
      = messages (ui w)
        ++ [ {| Message.id := now + 1;
                Message.text := Response.text data;
                Message.sender := ai;
                Message.model := Response.selected_model data;
                Message.modelInfo := Response.model_info data;
                Message.voiceModel := Response.voice_model data;
                Message.timestamp := time;
                Message.processingTime := Response.processing_time data;
                Message.error := false |} ]
    ∧ isLoading (ui w') = false
    ∧ inputMessage (ui w') = inputMessage (ui w)
    ∧ selectedModel (ui w') = selectedModel (ui w)
    ∧ isListening (ui w') = isListening (ui w)
    ∧ inflight w' = delete i (inflight w)
    ∧ (Response.voice_model data = None ∨ isSpeaking (closure p) = true →
       isSpeaking (ui w') = isSpeaking (ui w) ∧ utterances w' = utterances w).
Proof.
  intros Hp. unfold step. rewrite Hp. simpl.
  eexists. split; [reflexivity|].
  unfold sendMessage_settled, synthesizeVoice.
  destruct (Response.voice_model data) as [vm|], (isSpeaking (closure p)),
           (speechSynthesis win); unfold run; simpl;
    (split; [reflexivity|]); (split; [reflexivity|]); (split; [reflexivity|]);
    (split; [reflexivity|]); (split; [reflexivity|]); (split; [reflexivity|]);
    intros [?|?]; done.
Qed.

Lemma reply_success_appended_witness :
  let w := after browser [ Typed (lit "Wah gwaan"); Submit 1000 noon ] in
  ∃ p w',
    inflight w !! 0 = Some p
    ∧ step browser w (FetchSettled 0 (Ok reply) 1400 noon) = Some w'
    ∧ Message.text <$> messages (ui w')
      = [ lit "Wah gwaan"; lit "Irie, my friend" ]
    ∧ Message.model <$> messages (ui w') = [ None; Some (lit "claude") ]
    ∧ isLoading (ui w') = false.
Proof.
  intros w.
  edestruct (reply_success_appended browser w 0)
    with (data := reply) (now := 1400%Z) (time := noon)
    as (w' & Hstep & Hmsgs & Hidle & _); [reflexivity|].
  eexists. exists w'. split; [reflexivity|]. split; [exact Hstep|].
  rewrite Hmsgs. repeat split. exact Hidle.
Defined.

(** X3.  In every world the component can reach, the loading flag is on
    exactly when one [sendMessage] is suspended; and then the settlement of
    its fetch, whatever the outcome, can happen and turns the flag off. *)
Theorem loading_iff_request_in_flight (win : Window) (evs : list Event) (w : World) :
  steps win initialWorld evs = Some w →
  (isLoading (ui w) = true ↔ ∃ p, inflight w = [ p ])
  ∧ (isLoading (ui w) = true →
     ∀ (o : FetchOutcome) (now : Z) (time : jsstring),
       ∃ w', step win w (FetchSettled 0 o now time) = Some w'
             ∧ isLoading (ui w') = false
             ∧ inflight w' = []).
Proof.
  intros Hsteps.
  destruct (steps_conversation_invariant win evs w Hsteps)
    as [Hinv (Hidle & _)].
  pose proof Hinv as (Hfl & Hld & _).
  assert (Hiff : isLoading (ui w) = true ↔ ∃ p, inflight w = [ p ]).
  { split.
    - intros Hbusy. destruct (inflight w) as [|p [|p' rest]]; simpl in Hfl.
      + rewrite Hidle in Hbusy; done.
      + by exists p.
      + lia.
    - intros [p Hp]. destruct (isLoading (ui w)); [done|].
      rewrite Hld in Hp; done. }
  split; [exact Hiff|].
  intros Hbusy o now time. apply Hiff in Hbusy as [p Hp].
  assert (Hstep : ∃ w', step win w (FetchSettled 0 o now time) = Some w'
                        ∧ isLoading (ui w') = false).
  { unfold step. rewrite Hp. simpl. eexists. split; [reflexivity|].
    unfold sendMessage_settled. by rewrite run_snoc. }
  destruct Hstep as (w' & Hstep & Hoff).
  exists w'. split; [exact Hstep|]. split; [exact Hoff|].
  destruct (step_invariant win w w' _ Hinv Hstep) as (_ & Hld' & _).
  by apply Hld'.
Qed.

Lemma loading_iff_request_in_flight_witness :
  ∃ w,
    steps browser initialWorld twoSubmissions = Some w
    ∧ isLoading (ui w) = true
    ∧ length (inflight w) = 1
    ∧ ∃ w', step browser w (FetchSettled 0 BadBody 5300 noon) = Some w'
            ∧ isLoading (ui w') = false.
Proof.
  destruct (steps browser initialWorld twoSubmissions) as [w|] eqn:Hw;
    [|discriminate].
  destruct (loading_iff_request_in_flight browser twoSubmissions w Hw)
    as [Hiff Hsettle].
  vm_compute in Hw. injection Hw as <-.
  destruct (Hsettle eq_refl BadBody 5300%Z noon) as (w' & Hstep & Hoff & _).
  eexists. split; [reflexivity|]. split; [reflexivity|]. split; [reflexivity|].
  exists w'. done.
Defined.

(** X4.  In every reachable world the store alternates: a user message,
    its reply, a user message, its reply, and so on, ending with a user
    message without a reply exactly when the loading flag is on.  No reply
    comes unasked and no user message gets two. *)
Theorem conversation_alternates (win : Window) (evs : list Event) (w : World) :
  steps win initialWorld evs = Some w →
  ∃ n, Message.sender <$> messages (ui w)
       = rounds n ++ (if isLoading (ui w) then [ user ] else []).
Proof.
  intros Hsteps.
  by destruct (steps_conversation_invariant win evs w Hsteps)
    as [_ (_ & Hn & _)].
Qed.

Lemma conversation_alternates_witness :
  ∃ w,
    steps browser initialWorld twoSubmissions = Some w
    ∧ Message.sender <$> messages (ui w) = [ user; ai; user ]
    ∧ ∃ n, Message.sender <$> messages (ui w)
           = rounds n ++ (if isLoading (ui w) then [ user ] else []).
Proof.
  destruct (steps browser initialWorld twoSubmissions) as [w|] eqn:Hw;
    [|discriminate].
  pose proof (conversation_alternates browser twoSubmissions w Hw) as Hn.
  exists w. split; [reflexivity|]. split; [|exact Hn].
  vm_compute in Hw. by injection Hw as <-.
Defined.

(** X5.  Every message of a reachable store has one of the shapes the
    component builds: a user message has a text that is not blank and no
    persona, persona info, voice model, processing time or error flag; a
    message with the error flag is an assistant message with the apology
    text and the persona key [error]. *)
Theorem stored_messages_well_formed (win : Window) (evs : list Event) (w : World) :
  steps win initialWorld evs = Some w →
  Forall wellFormed (messages (ui w)).
Proof.
  intros Hsteps.
  by destruct (steps_conversation_invariant win evs w Hsteps)
    as [_ (_ & _ & Hwf & _)].
Qed.

Lemma stored_messages_well_formed_witness :
  ∃ w,
    steps browser initialWorld twoSubmissions = Some w
    ∧ Message.text <$> messages (ui w)
      = [ lit "Wah gwaan"; apology; lit " Yuh good? " ]
    ∧ Forall wellFormed (messages (ui w)).
Proof.
  destruct (steps browser initialWorld twoSubmissions) as [w|] eqn:Hw;
    [|discriminate].
  pose proof (stored_messages_well_formed browser twoSubmissions w Hw) as Hwf.
  exists w. split; [reflexivity|]. split; [|exact Hwf].
  vm_compute in Hw. by injection Hw as <-.
Defined.

(** X6.  While a [sendMessage] is suspended, the store is the one it
    captured followed by the user message it appended, and nothing else: its
    request holds the text of that message, the persona selected when it was
    called, and the last five messages that precede that message. *)
Theorem request_in_flight_matches_store (win : Window) (evs : list Event)
    (w : World) (i : nat) (p : Pending) :
  steps win initialWorld evs = Some w →
  inflight w !! i = Some p →
  ∃ userMessage,
    messages (ui w) = messages (closure p) ++ [ userMessage ]
    ∧ Message.sender userMessage = user
    ∧ Message.text userMessage = Request.message (request p)
    ∧ Request.message (request p) = inputMessage (closure p)
    ∧ Request.selected_model (Request.ctx (request p))
      = selectedModel (closure p)
    ∧ Request.conversation_history (Request.ctx (request p))
      = slice_last 5 (messages (closure p)).
Proof.
  intros Hsteps Hp.
  destruct (steps_conversation_invariant win evs w Hsteps)
    as [_ (_ & _ & _ & Hawaits)].
  apply Hawaits. by eapply list_elem_of_lookup_2.
Qed.

Lemma request_in_flight_matches_store_witness :
  ∃ w p,
    steps browser initialWorld twoSubmissions = Some w
    ∧ inflight w !! 0 = Some p
    ∧ Request.message (request p) = lit " Yuh good? "
    ∧ Request.selected_model (Request.ctx (request p)) = lit "gpt4"
    ∧ ∃ userMessage,
        messages (ui w) = messages (closure p) ++ [ userMessage ]
        ∧ Message.text userMessage = Request.message (request p)
        ∧ Message.text
            <$> Request.conversation_history (Request.ctx (request p))
          = [ lit "Wah gwaan"; apology ].
Proof.
  destruct (steps browser initialWorld twoSubmissions) as [w|] eqn:Hw;
    [|discriminate].
  destruct (inflight w !! 0) as [p|] eqn:Hp;
    [|vm_compute in Hw; injection Hw as <-; discriminate].
  destruct (request_in_flight_matches_store browser twoSubmissions w 0 p Hw Hp)
    as (u & Hstore & _ & Htext & _ & _ & Hhist).
  exists w, p. split; [reflexivity|]. split; [exact Hp|].
  vm_compute in Hw. injection Hw as <-.
  vm_compute in Hp. injection Hp as <-.
  split; [reflexivity|]. split; [reflexivity|].
  exists u. split; [exact Hstore|]. split; [exact Htext|].
  reflexivity.
Defined.

(** ** The speaking flag where a synthesiser exists *)

Lemma step_speaking_has_utterance (win : Window) (w w' : World) (ev : Event) :
  speechSynthesis win ≠ Unsupported →
  (isSpeaking (ui w) = true → utterances w ≠ []) →
  step win w ev = Some w' →
  isSpeaking (ui w') = true → utterances w' ≠ [].
Proof.
  destruct w as [s infl utts]. simpl. intros Hwin Hq Hstep.
  destruct ev as [v|k|now time|i o now time| | | |transcript| | | |];
    unfold step in Hstep; simpl in Hstep.
  - injection Hstep as <-. unfold run; simpl. done.
  - injection Hstep as <-. unfold run; simpl. done.
  - injection Hstep as <-. unfold sendMessage.
    destruct (blocked s); unfold run; simpl; done.
  - destruct (infl !! i) as [p|]; simpl in Hstep; [|discriminate].
    injection Hstep as <-.
    unfold sendMessage_settled, synthesizeVoice.
    destruct o as [| | |data]; unfold run; simpl; try done.
    destruct (Response.voice_model data), (isSpeaking (closure p)),
             (speechSynthesis win); simpl; try done.
    intros _. by destruct utts.
  - injection Hstep as <-. unfold startListening.
    destruct (webkitSpeechRecognition win && negb (isListening s));
      unfold run; simpl; done.
  - injection Hstep as <-. unfold stopListening.
    destruct (webkitSpeechRecognition win && isListening s);
      unfold run; simpl; done.
  - injection Hstep as <-.
    unfold stopSpeaking, speechSynthesis_in_window.
    destruct (speechSynthesis win); unfold run; simpl; done.
  - destruct (webkitSpeechRecognition win); [|discriminate].
    injection Hstep as <-. unfold run; simpl. done.
  - destruct (webkitSpeechRecognition win); [|discriminate].
    injection Hstep as <-. unfold run; simpl. done.
  - destruct (webkitSpeechRecognition win); [|discriminate].
    injection Hstep as <-. unfold run; simpl. done.
  - unfold pop_utterance in Hstep; simpl in Hstep.
    destruct utts; [discriminate|]. injection Hstep as <-.
    unfold run; simpl. done.
  - unfold pop_utterance in Hstep; simpl in Hstep.
    destruct utts; [discriminate|]. injection Hstep as <-.
    unfold run; simpl. done.
Qed.

Lemma steps_speaking_has_utterance (win : Window) (evs : list Event) (w w' : World) :
  speechSynthesis win ≠ Unsupported →
  (isSpeaking (ui w) = true → utterances w ≠ []) →
  steps win w evs = Some w' →
  isSpeaking (ui w') = true → utterances w' ≠ [].
Proof.
  intros Hwin. revert w. induction evs as [|ev evs IH]; intros w Hq; simpl.
  - by intros [= <-].
  - destruct (step win w ev) as [w1|] eqn:Hstep; [|discriminate]. simpl.
    apply IH. by eapply step_speaking_has_utterance.
Qed.

(** X7.  Where the browser has a speech synthesiser, the speaking flag of a
    reachable world is on exactly when an utterance is queued.  So whenever
    the component is speaking, the end or failure of that utterance can
    happen and turns the flag off; and [stopSpeaking] always leaves the
    component silent with an empty queue. *)
Theorem speaking_iff_utterance_queued (win : Window) (evs : list Event) (w : World) :
  speechSynthesis win ≠ Unsupported →
  steps win initialWorld evs = Some w →
  (isSpeaking (ui w) = true ↔ utterances w ≠ [])
  ∧ (isSpeaking (ui w) = true →
     ∀ ev, ev = PlaybackEnd ∨ ev = PlaybackError →
       ∃ w', step win w ev = Some w'
             ∧ isSpeaking (ui w') = false ∧ utterances w' = [])
  ∧ ∃ w', step win w StopSpeaking = Some w'
          ∧ isSpeaking (ui w') = false ∧ utterances w' = [].
Proof.
  intros Hwin Hsteps.
  assert (Hinv : invariant w).
  { eapply steps_invariant; [apply invariant_init | exact Hsteps]. }
  destruct Hinv as (_ & _ & Hq & Hspk & _).
  assert (Hon : isSpeaking (ui w) = true → utterances w ≠ []).
  { by eapply (steps_speaking_has_utterance win evs initialWorld). }
  split; [|split].
  - split; [exact Hon|]. intros Hne.
    destruct (isSpeaking (ui w)); [done|]. by specialize (Hspk eq_refl).
  - intros Hspeaking ev Hev. specialize (Hon Hspeaking).
    destruct w as [s infl [|u [|u' q]]]; simpl in *; [done| |lia].
    destruct Hev as [->| ->]; eexists; (split; [reflexivity|]); done.
  - unfold step, stopSpeaking, speechSynthesis_in_window.
    destruct (speechSynthesis win); [done| |];
      eexists; (split; [reflexivity|]); done.
Qed.

Lemma speaking_iff_utterance_queued_witness :
  let evs := [ Typed (lit "Wah gwaan"); Submit 1000 noon;
               FetchSettled 0 (Ok reply) 1400 noon ] in
  speechSynthesis browser ≠ Unsupported
  ∧ ∃ w w',
      steps browser initialWorld evs = Some w
      ∧ isSpeaking (ui w) = true
      ∧ length (utterances w) = 1
      ∧ step browser w PlaybackEnd = Some w'
      ∧ isSpeaking (ui w') = false.
Proof.
  intros evs. split; [discriminate|].
  destruct (steps browser initialWorld evs) as [w|] eqn:Hw; [|discriminate].
  destruct (speaking_iff_utterance_queued browser evs w) as (_ & Hend & _);
    [discriminate | exact Hw |].
  vm_compute in Hw. injection Hw as <-.
  destruct (Hend eq_refl PlaybackEnd) as (w' & Hstep & Hoff & _); [by left|].
  eexists. exists w'. split; [reflexivity|]. split; [reflexivity|].
  split; [reflexivity|]. done.
Defined.

(** ** Listening *)

Lemma step_not_listening (win : Window) (w w' : World) (ev : Event) :
  webkitSpeechRecognition win = false →
  isListening (ui w) = false →
  step win w ev = Some w' → isListening (ui w') = false.
Proof.
  destruct w as [s infl utts]. simpl. intros Hwin Hoff Hstep.
  destruct ev as [v|k|now time|i o now time| | | |transcript| | | |];
    unfold step in Hstep; simpl in Hstep; rewrite ?Hwin in Hstep;
    try discriminate.
  - injection Hstep as <-. unfold run; simpl. done.
  - injection Hstep as <-. unfold run; simpl. done.
  - injection Hstep as <-. unfold sendMessage.
    destruct (blocked s); unfold run; simpl; done.
  - destruct (infl !! i) as [p|]; simpl in Hstep; [|discriminate].
    injection Hstep as <-.
    unfold sendMessage_settled, synthesizeVoice.
    destruct o as [| | |data]; unfold run; simpl; try done.
    destruct (Response.voice_model data), (isSpeaking (closure p)),
             (speechSynthesis win); simpl; done.
  - injection Hstep as <-. unfold startListening. rewrite Hwin. done.
  - injection Hstep as <-. unfold stopListening. rewrite Hwin. done.
  - injection Hstep as <-. unfold stopSpeaking.
    destruct (speechSynthesis_in_window win); unfold run; simpl; done.
  - unfold pop_utterance in Hstep; simpl in Hstep.
    destruct utts; [discriminate|]. injection Hstep as <-.
    unfold run; simpl. done.
  - unfold pop_utterance in Hstep; simpl in Hstep.
    destruct utts; [discriminate|]. injection Hstep as <-.
    unfold run; simpl. done.
Qed.

(** X8.  In a browser without [webkitSpeechRecognition] the component never
    listens: the listening flag is off in every reachable world, and a click
    on the microphone leaves the world as it is. *)
Theorem never_listening_without_recogniser (win : Window) (evs : list Event)
    (w : World) :
  webkitSpeechRecognition win = false →
  steps win initialWorld evs = Some w →
  isListening (ui w) = false
  ∧ run (ui w) w (micButton_onClick win (ui w)) = w
  ∧ step win w StartListening = Some w.
Proof.
  intros Hwin Hsteps.
  assert (Hgen : ∀ w0, isListening (ui w0) = false →
    steps win w0 evs = Some w → isListening (ui w) = false).
  { clear Hsteps. induction evs as [|ev evs IH]; intros w0 Hoff; simpl.
    - by intros [= <-].
    - destruct (step win w0 ev) as [w1|] eqn:Hstep; [|discriminate]. simpl.
      apply IH. by eapply step_not_listening. }
  assert (Hoff : isListening (ui w) = false).
  { by apply (Hgen initialWorld). }
  split; [exact Hoff|].
  unfold step, micButton_onClick, startListening. rewrite Hoff, Hwin. done.
Qed.

Lemma never_listening_without_recogniser_witness :
  let win := {| webkitSpeechRecognition := false; speechSynthesis := Supported |} in
  let evs := [ StartListening; Typed (lit "Wah gwaan"); StartListening ] in
  webkitSpeechRecognition win = false
  ∧ ∃ w, steps win initialWorld evs = Some w ∧ isListening (ui w) = false.
Proof.
  intros win evs. split; [reflexivity|].
  destruct (steps win initialWorld evs) as [w|] eqn:Hw; [|discriminate].
  exists w. split; [reflexivity|].
  by destruct (never_listening_without_recogniser win evs w eq_refl Hw).
Defined.

(** X9.  With a recogniser, a click on the microphone flips the listening
    flag and nothing else in the store, and a second click brings back the
    world of before the first. *)
Theorem micButton_toggles (win : Window) (w : World) :
  webkitSpeechRecognition win = true →
  let w1 := run (ui w) w (micButton_onClick win (ui w)) in
  w1 = with_ui (set_isListening (negb (isListening (ui w)))) w
  ∧ run (ui w1) w1 (micButton_onClick win (ui w1)) = w.
Proof.
  intros Hwin. destruct w as [[msgs inp ld sel lis spk] infl utts].
  unfold micButton_onClick, startListening, stopListening; simpl.
  rewrite Hwin. by destruct lis.
Qed.

Lemma micButton_toggles_witness :
  let w := typed (lit "Wah gwaan") in
  let w1 := run (ui w) w (micButton_onClick browser (ui w)) in
  webkitSpeechRecognition browser = true
  ∧ isListening (ui w1) = true
  ∧ run (ui w1) w1 (micButton_onClick browser (ui w1)) = w.
Proof.
  intros w w1. split; [reflexivity|]. split; [reflexivity|].
  by destruct (micButton_toggles browser w eq_refl).
Defined.

(** ** The send button and the Enter key *)

(** X10.  While the component is not speaking, the send button is disabled
    exactly when [sendMessage] would return at its guard, and its click is
    [sendMessage]: a click on the enabled button always submits.  While the
    component is speaking, the button is disabled only by the loading flag,
    blank input or not, and its click is [stopSpeaking]. *)
Theorem sendButton_matches_guard (win : Window) (s : State) (now : Z)
    (time : jsstring) :
  (isSpeaking s = false →
   sendButton_disabled s = blocked s
   ∧ sendButton_onClick win s now time = sendMessage s now time
   ∧ (sendButton_disabled s = false →
      ∃ userMessage req,
        sendButton_onClick win s now time
        = [ SetMessages userMessage; SetInputMessage []; SetIsLoading true;
            Fetch req ]))
  ∧ (isSpeaking s = true →
     sendButton_disabled s = isLoading s
     ∧ sendButton_onClick win s now time = stopSpeaking win).
Proof.
  unfold sendButton_disabled, sendButton_onClick, blocked. split.
  - intros ->. rewrite andb_true_r, orb_comm.
    split; [reflexivity|]. split; [reflexivity|].
    intros Hen. unfold sendMessage, blocked. rewrite Hen.
    eexists. eexists. reflexivity.
  - intros ->. rewrite andb_false_r, orb_false_r. done.
Qed.

Lemma sendButton_matches_guard_witness :
  let s := ui (typed (lit "Wah gwaan")) in
  isSpeaking s = false
  ∧ sendButton_disabled s = false
  ∧ ∃ userMessage req,
      sendButton_onClick browser s 1000 noon
      = [ SetMessages userMessage; SetInputMessage []; SetIsLoading true;
          Fetch req ].
Proof.
  intros s. split; [reflexivity|]. split; [reflexivity|].
  destruct (proj1 (sendButton_matches_guard browser s 1000%Z noon) eq_refl)
    as (_ & _ & Hclick).
  by apply Hclick.
Defined.

(** X12.  A key press issues commands only if the key is Enter, Shift is not
    held, the input is not blank and no response is awaited; it is then
    [sendMessage] with the default action of the key prevented.  Shift+Enter
    and every other key never send. *)
Theorem handleKeyPress_sends_only_on_enter (s : State) (key : jsstring)
    (shiftKey : bool) (now : Z) (time : jsstring) :
  (handleKeyPress s key shiftKey now time).2 ≠ [] →
  key = lit "Enter"
  ∧ shiftKey = false
  ∧ trim (inputMessage s) ≠ []
  ∧ isLoading s = false
  ∧ handleKeyPress s key shiftKey now time = (true, sendMessage s now time).
Proof.
  unfold handleKeyPress.
  destruct (bool_decide (key = lit "Enter")) eqn:Hkey, shiftKey; simpl;
    try done.
  apply bool_decide_eq_true in Hkey.
  unfold sendMessage. destruct (blocked s) eqn:Hb; [done|].
  apply blocked_false in Hb as [Hne Hidle]. intros _. done.
Qed.

Lemma handleKeyPress_sends_only_on_enter_witness :
  let s := ui (typed (lit "Wah gwaan")) in
  (handleKeyPress s (lit "Enter") false 1000 noon).2 ≠ []
  ∧ handleKeyPress s (lit "Enter") false 1000 noon
    = (true, sendMessage s 1000 noon)
  ∧ (handleKeyPress s (lit "Enter") true 1000 noon).2 = [].
Proof.
  intros s.
  assert (H : (handleKeyPress s (lit "Enter") false 1000 noon).2 ≠ [])
    by discriminate.
  split; [exact H|]. split; [|reflexivity].
  by destruct (handleKeyPress_sends_only_on_enter s _ _ _ _ H) as (_ & _ & _ & _ & ?).
Defined.

(** ** Voice input, then submission *)

(** X15.  A transcript replaces whatever the input holds and is not sent by
    itself; the next submission sends exactly the transcript, as the text of
    the user message and of the request. *)
Theorem transcript_then_submit (win : Window) (w : World) (transcript : jsstring)
    (now : Z) (time : jsstring) :
  webkitSpeechRecognition win = true →
  isLoading (ui w) = false →
  trim transcript ≠ [] →
  ∃ w1 w2 userMessage p,
    step win w (RecognitionResult transcript) = Some w1
    ∧ messages (ui w1) = messages (ui w)
    ∧ inflight w1 = inflight w
    ∧ inputMessage (ui w1) = transcript
    ∧ step win w1 (Submit now time) = Some w2
    ∧ messages (ui w2) = messages (ui w) ++ [ userMessage ]
    ∧ Message.text userMessage = transcript
    ∧ inflight w2 = inflight w ++ [ p ]
    ∧ Request.message (request p) = transcript
    ∧ isListening (ui w2) = false.
Proof.
  intros Hwin Hidle Hne.
  destruct w as [[msgs inp ld sel lis spk] infl utts]; simpl in *. subst ld.
  rewrite Hwin.
  assert (Hguard : ∀ s, inputMessage s = transcript → isLoading s = false →
                        blocked s = false).
  { intros s Hs Hl. apply blocked_false. by rewrite Hs. }
  unfold recognition_onresult, run; simpl.
  eexists. eexists. eexists. eexists.
  split; [reflexivity|]. split; [reflexivity|]. split; [reflexivity|].
  split; [reflexivity|]. simpl.
  unfold sendMessage. rewrite Hguard by reflexivity.
  unfold run; simpl.
  split; [reflexivity|]. simpl. split; [reflexivity|]. split; [reflexivity|].
  split; [reflexivity|]. done.
Qed.

Lemma transcript_then_submit_witness :
  let w := typed (lit "typed by hand") in
  webkitSpeechRecognition browser = true
  ∧ isLoading (ui w) = false
  ∧ trim (lit "Wah gwaan") ≠ []
  ∧ ∃ w2,
      steps browser w [ RecognitionResult (lit "Wah gwaan"); Submit 1000 noon ]
        = Some w2
      ∧ Message.text <$> messages (ui w2) = [ lit "Wah gwaan" ]
      ∧ (Request.message ∘ request) <$> inflight w2 = [ lit "Wah gwaan" ].
Proof.
  intros w. split; [reflexivity|]. split; [reflexivity|]. split; [discriminate|].
  destruct (transcript_then_submit browser w (lit "Wah gwaan") 1000 noon)
    as (w1 & w2 & u & p & H1 & _ & _ & _ & H2 & _);
    [reflexivity | reflexivity | discriminate |].
  vm_compute in H1. injection H1 as <-.
  vm_compute in H2. injection H2 as <-.
  eexists. split; [reflexivity|]. split; reflexivity.
Defined.

(** ** Personas *)

Lemma personaKeys_NoDup : NoDup personaKeys.
Proof. apply (bool_decide_unpack _). by vm_compute. Qed.

Lemma step_selectedModel (win : Window) (w w' : World) (ev : Event) :
  step win w ev = Some w' →
  selectedModel (ui w')
  = match ev with SelectModel k => k | _ => selectedModel (ui w) end.
Proof.
  destruct w as [s infl utts]. intros Hstep.
  destruct ev as [v|k|now time|i o now time| | | |transcript| | | |];
    unfold step in Hstep; simpl in Hstep.
  - by injection Hstep as <-.
  - by injection Hstep as <-.
  - injection Hstep as <-. unfold sendMessage.
    destruct (blocked s); unfold run; simpl; done.
  - destruct (infl !! i) as [p|]; simpl in Hstep; [|discriminate].
    injection Hstep as <-.
    unfold sendMessage_settled, synthesizeVoice.
    destruct o as [| | |data]; unfold run; simpl; try done.
    destruct (Response.voice_model data), (isSpeaking (closure p)),
             (speechSynthesis win); simpl; done.
  - injection Hstep as <-. unfold startListening.
    destruct (webkitSpeechRecognition win && negb (isListening s));
      unfold run; simpl; done.
  - injection Hstep as <-. unfold stopListening.
    destruct (webkitSpeechRecognition win && isListening s);
      unfold run; simpl; done.
  - injection Hstep as <-. unfold stopSpeaking.
    destruct (speechSynthesis_in_window win); unfold run; simpl; done.
  - destruct (webkitSpeechRecognition win); [|discriminate].
    by injection Hstep as <-.
  - destruct (webkitSpeechRecognition win); [|discriminate].
    by injection Hstep as <-.
  - destruct (webkitSpeechRecognition win); [|discriminate].
    by injection Hstep as <-.
  - unfold pop_utterance in Hstep; simpl in Hstep.
    destruct utts; [discriminate|]. by injection Hstep as <-.
  - unfold pop_utterance in Hstep; simpl in Hstep.
    destruct utts; [discriminate|]. by injection Hstep as <-.
Qed.

(** A call in flight after a step was in flight before it, or was started by
    the step and captured the store of before. *)
Lemma step_inflight_origin (win : Window) (w w' : World) (ev : Event) (p : Pending) :
  step win w ev = Some w' →
  p ∈ inflight w' → p ∈ inflight w ∨ closure p = ui w.
Proof.
  destruct w as [s infl utts]. intros Hstep.
  destruct ev as [v|k|now time|i o now time| | | |transcript| | | |];
    unfold step in Hstep; simpl in Hstep.
  - injection Hstep as <-. by left.
  - injection Hstep as <-. by left.
  - injection Hstep as <-. unfold sendMessage.
    destruct (blocked s); unfold run; simpl; [by left|].
    intros Hin. apply elem_of_app in Hin as [Hin|Hin]; [by left|].
    apply list_elem_of_singleton in Hin as ->. by right.
  - destruct (infl !! i) as [q|]; simpl in Hstep; [|discriminate].
    injection Hstep as <-.
    assert (Hsub : p ∈ delete i infl → p ∈ infl ∨ closure p = s).
    { intros Hin. left. by eapply list_elem_of_delete_inv. }
    unfold sendMessage_settled, synthesizeVoice.
    destruct o as [| | |data]; unfold run; simpl; try done.
    destruct (Response.voice_model data), (isSpeaking (closure q)),
             (speechSynthesis win); simpl; done.
  - injection Hstep as <-. unfold startListening.
    destruct (webkitSpeechRecognition win && negb (isListening s));
      unfold run; simpl; by left.
  - injection Hstep as <-. unfold stopListening.
    destruct (webkitSpeechRecognition win && isListening s);
      unfold run; simpl; by left.
  - injection Hstep as <-. unfold stopSpeaking.
    destruct (speechSynthesis_in_window win); unfold run; simpl; by left.
  - destruct (webkitSpeechRecognition win); [|discriminate].
    injection Hstep as <-. by left.
  - destruct (webkitSpeechRecognition win); [|discriminate].
    injection Hstep as <-. by left.
  - destruct (webkitSpeechRecognition win); [|discriminate].
    injection Hstep as <-. by left.
  - unfold pop_utterance in Hstep; simpl in Hstep.
    destruct utts; [discriminate|]. injection Hstep as <-. by left.
  - unfold pop_utterance in Hstep; simpl in Hstep.
    destruct utts; [discriminate|]. injection Hstep as <-. by left.
Qed.

Lemma personaKeys_entry (k : jsstring) :
  k ∈ personaKeys → ∃ persona, (k, persona) ∈ AI_MODELS.
Proof.
  unfold personaKeys. intros Hk.
  apply list_elem_of_fmap in Hk as ([k' persona] & -> & Hin).
  by exists persona.
Qed.

(** X13.  The persona buttons are the only callers of [setSelectedModel], one
    per entry of [AI_MODELS], whose keys are pairwise distinct.  So in every
    world reached through the page the selected persona is a key of the
    table, and so is the persona named in every request in flight. *)
Theorem selected_persona_in_table (win : Window) (evs : list Event) (w : World) :
  Forall (λ ev, fromPage ev = true) evs →
  steps win initialWorld evs = Some w →
  NoDup personaKeys
  ∧ (∃ persona, (selectedModel (ui w), persona) ∈ AI_MODELS)
  ∧ ∀ i p, inflight w !! i = Some p →
      ∃ persona,
        (Request.selected_model (Request.ctx (request p)), persona) ∈ AI_MODELS.
Proof.
  intros Hpage Hsteps.
  assert (Hgen : ∀ w0,
    selectedModel (ui w0) ∈ personaKeys →
    (∀ p, p ∈ inflight w0 → selectedModel (closure p) ∈ personaKeys) →
    steps win w0 evs = Some w →
    selectedModel (ui w) ∈ personaKeys
    ∧ ∀ p, p ∈ inflight w → selectedModel (closure p) ∈ personaKeys).
  { clear Hsteps. induction Hpage as [|ev evs Hev _ IH]; intros w0 Hsel Hfl; simpl.
    - by intros [= <-].
    - destruct (step win w0 ev) as [w1|] eqn:Hstep; [|discriminate]. simpl.
      apply IH.
      + rewrite (step_selectedModel win w0 w1 ev Hstep).
        destruct ev; try exact Hsel. by apply bool_decide_eq_true in Hev.
      + intros p Hp.
        destruct (step_inflight_origin win w0 w1 ev p Hstep Hp) as [Hold| ->];
          [by apply Hfl | exact Hsel]. }
  destruct (Hgen initialWorld) as [Hsel Hfl]; [| |exact Hsteps|].
  { by apply (bool_decide_unpack _). }
  { intros p Hp. by apply elem_of_nil in Hp. }
  split; [apply personaKeys_NoDup|]. split; [by apply personaKeys_entry|].
  intros i p Hp.
  assert (Hin : p ∈ inflight w) by (by eapply list_elem_of_lookup_2).
  destruct (steps_conversation_invariant win evs w Hsteps)
    as [_ (_ & _ & _ & Hawaits)].
  destruct (Hawaits p Hin) as (u & _ & _ & _ & _ & -> & _).
  by apply personaKeys_entry, Hfl.
Qed.

Lemma selected_persona_in_table_witness :
  ∃ w p,
    Forall (λ ev, fromPage ev = true) twoSubmissions
    ∧ steps browser initialWorld twoSubmissions = Some w
    ∧ selectedModel (ui w) = lit "gpt4"
    ∧ inflight w !! 0 = Some p
    ∧ ∃ persona,
        (Request.selected_model (Request.ctx (request p)), persona) ∈ AI_MODELS.
Proof.
  assert (Hpage : Forall (λ ev, fromPage ev = true) twoSubmissions).
  { repeat constructor. }
  destruct (steps browser initialWorld twoSubmissions) as [w|] eqn:Hw;
    [|discriminate].
  destruct (inflight w !! 0) as [p|] eqn:Hp;
    [|vm_compute in Hw; injection Hw as <-; discriminate].
  destruct (selected_persona_in_table browser twoSubmissions w Hpage Hw)
    as (_ & _ & Hreq).
  exists w, p. split; [exact Hpage|]. split; [reflexivity|].
  split; [|split; [exact Hp | by apply (Hreq 0)]].
  vm_compute in Hw. by injection Hw as <-.
Defined.

(** ** Start-up *)

(** X11.  The connection check and the model list do not interfere: in
    whichever order the two fetches settle, the connection status is
    [connected] if the health check answered with a success status and
    [error] in every other case, the model list is the one received, or
    the one of before if the fetch failed in any way, and the label and the
    colour of the indicator follow the status.  Before the check settles the
    page says it is connecting. *)
Theorem startup_fetches_settle (st : Startup) (h : HealthOutcome) (m : ModelsOutcome) :
  let st1 := runStartup (runStartup st (checkConnection h)) (loadAvailableModels m) in
  let st2 := runStartup (runStartup st (loadAvailableModels m)) (checkConnection h) in
  st1 = st2
  ∧ connectionStatus st1
    = match h with HealthStatus true => lit "connected" | _ => lit "error" end
  ∧ availableModels st1
    = match m with ModelsOk models => models | _ => availableModels st end
  ∧ connectionLabel st1
    = match h with
      | HealthStatus true => lit "Connected"
      | _ => lit "Connection Error"
      end
  ∧ connectionColor st1
    = match h with
      | HealthStatus true => lit "bg-green-500"
      | _ => lit "bg-red-500"
      end
  ∧ connectionLabel initialStartup = lit "Connecting..."
  ∧ connectionColor initialStartup = lit "bg-yellow-500".
Proof.
  destruct st as [status models].
  destruct h as [|[|]], m as [| | |received]; repeat split.
Qed.

(** ** Nothing is ever taken out of the store *)

(** X14.  No event removes, replaces or moves a message: after any run of
    events, every message of the store is still there, at the index it
    had, and the store is at least as long as it was. *)
Theorem store_only_grows (win : Window) (evs : list Event) (w w' : World) :
  steps win w evs = Some w' →
  length (messages (ui w)) ≤ length (messages (ui w'))
  ∧ ∀ j m, messages (ui w) !! j = Some m → messages (ui w') !! j = Some m.
Proof.
  intros Hsteps. apply steps_append_only in Hsteps.
  split; [by apply prefix_length|].
  intros j m Hj. by eapply prefix_lookup_Some.
Qed.

Lemma store_only_grows_witness :
  ∃ w w',
    steps browser initialWorld [ Typed (lit "Wah gwaan"); Submit 1000 noon ]
      = Some w
    ∧ steps browser w
        [ SelectModel (lit "gpt4"); FetchSettled 0 (Ok reply) 1400 noon;
          StopSpeaking; Typed (lit "Yuh good?"); Submit 9000 noon ] = Some w'
    ∧ length (messages (ui w)) = 1
    ∧ length (messages (ui w')) = 3
    ∧ ∀ j m, messages (ui w) !! j = Some m → messages (ui w') !! j = Some m.
Proof.
  eexists. eexists. split; [reflexivity|]. split; [reflexivity|].
  split; [reflexivity|]. split; [reflexivity|].
  by apply (store_only_grows browser
    [ SelectModel (lit "gpt4"); FetchSettled 0 (Ok reply) 1400 noon;
      StopSpeaking; Typed (lit "Yuh good?"); Submit 9000 noon ]).
Defined.
